(** * unready-fetch: a mocked [fetch] that answers after a delay

    Shallow embedding of [src/unready-fetch.ts].  The file follows the
    source top-down: JavaScript values and the two coercions the code
    relies on (truthiness for [!x] / [&&], nullishness for [??]), the two
    interfaces, the two default payloads, the host objects the request
    function touches (promises, timers, abort signals, the console), and
    finally [unreadyFetch] itself. *)

From Stdlib Require Import ZArith String List Bool.
From Stdlib Require Import SpecFloat.
From stdpp Require Import base option list gmap.

Local Open Scope string_scope.
Local Open Scope list_scope.
Set Warnings "-register-all".

(** ** JavaScript values *)

(** A JavaScript [number] is an IEEE-754 binary64; [spec_float] is the
    standard library's inductive description of those. *)
Definition number : Type := spec_float.

(** The number written as the integer literal [z] in the source. *)
Definition lit (z : Z) : number := binary_normalize 53 1024 z 0 false.

(** [a >= b] on numbers: false as soon as one side is [NaN]. *)
Definition number_ge (a b : number) : bool :=
  match SFcompare a b with
  | Some Gt | Some Eq => true
  | _ => false
  end.

(** [a < b] on numbers. *)
Definition number_lt (a b : number) : bool := SFltb a b.

(** Payloads are typed [any] in the source.  The model covers the values
    a mocked response body is made of: JSON data, plus [undefined].
    Object fields are listed in property-enumeration order. *)
Inductive JsVal : Type :=
  | Undefined
  | Null
  | Bool (b : bool)
  | Num (n : number)
  | Str (s : string)
  | Arr (items : list JsVal)
  | Obj (fields : list (string * JsVal)).

(** ToBoolean: what [!x], [!!x] and [x && y] look at. *)
Definition number_truthy (n : number) : bool :=
  match n with
  | S754_zero _ | S754_nan => false
  | _ => true
  end.

Definition ToBoolean (v : JsVal) : bool :=
  match v with
  | Undefined | Null => false
  | Bool b => b
  | Num n => number_truthy n
  | Str s => match s with EmptyString => false | String _ _ => true end
  | Arr _ | Obj _ => true
  end.

(** [v ?? d]: the right operand is taken only for [null] and [undefined]. *)
Definition nullish (v : JsVal) : bool :=
  match v with
  | Undefined | Null => true
  | _ => false
  end.

Definition coalesce (v d : JsVal) : JsVal := if nullish v then d else v.

(** ** The two interfaces *)

(** [UnreadyFetchMock]: every property is optional.  [None] is a property
    that is not there; [Some Undefined] is one that is there and holds
    [undefined].  [status] is declared [number], so for it [None] is also
    a [status] set to [undefined]. *)
Module Mock.
Record t : Type := make {
  success : option JsVal;
  error : option JsVal;
  status : option number;
}.
End Mock.

(** [UnreadyFetchResponse].  The two methods [json()] and [text()] are
    closures over the local variable holding the payload ([errData] in the
    error branch, [data] in the other one), and each call of them makes a
    promise.  A response is itself stored in a promise, so its methods
    cannot be kept as functions on the promise store: the record keeps the
    captured variable, and the methods are [json] and [text] below, which
    read it. *)
Module Response.
Record t : Type := make {
  url : string;
  ok : bool;
  status : number;
  captured : JsVal;
}.
End Response.

(** Reading a property yields [undefined] when the property is missing,
    and [mock?.p] yields [undefined] when [mock] itself is. *)
Definition mock_success (mock : option Mock.t) : JsVal :=
  default Undefined (mock ≫= Mock.success).

Definition mock_error (mock : option Mock.t) : JsVal :=
  default Undefined (mock ≫= Mock.error).

Definition mock_status (mock : option Mock.t) : option number :=
  mock ≫= Mock.status.

(** ** Default payloads *)

Definition defaultSuccessResponse : JsVal :=
  Obj [ ("status", Str "success");
        ("code", Num (lit 200));
        ("data", Obj [ ("id", Num (lit 123)); ("name", Str "Sample Data") ]);
        ("errors", Null) ].

Definition defaultErrorResponse : JsVal :=
  Obj [ ("status", Str "error");
        ("code", Num (lit 400));
        ("data", Null);
        ("errors", Arr [ Obj [ ("field", Str "email");
                               ("message", Str "Email is required") ] ]);
        ("trace_id", Str "abc123xyz") ].

(** ** The request target *)

(** [input : RequestInfo | URL], and what [input.toString()] gives for
    each: a string is itself, a [URL] is its [href], and a [Request] only
    has [Object.prototype.toString]. *)
Inductive RequestInput : Type :=
  | InputString (s : string)
  | InputURL (href : string)
  | InputRequest (request_url : string).

Definition input_toString (input : RequestInput) : string :=
  match input with
  | InputString s => s
  | InputURL href => href
  | InputRequest _ => "[object Request]"
  end.

(** ** Host objects

    The request function works on three kinds of host objects: the promise
    it returns, the timer it arms and the abort signal it may be handed.
    They live in a store that every operation threads through; handles are
    indices into it.  A callback handed to the host is kept as the closure
    it is in the source: which function, and the variables it captured. *)

(** What a promise is fulfilled with: a response (the request function),
    or a plain value ([json()], [text()]). *)
Inductive Resolved : Type :=
  | RResponse (r : Response.t)
  | RValue (v : JsVal).

Inductive PromiseState : Type :=
  | Pending
  | Fulfilled (v : Resolved)
  | Rejected (reason : JsVal).

Inductive Callback : Type :=
  (** the arrow function given to [setTimeout]; it captured [mock],
      [input] and [resolve] *)
  | OnTimeout (mock : option Mock.t) (input : RequestInput) (promise : nat)
  (** the arrow function given to [addEventListener]; it captured
      [timeoutId], [init.signal] and [reject] *)
  | OnAbort (timeoutId : nat) (signal : nat) (promise : nat).

Record AbortSignal : Type := {
  aborted : bool;
  reason : JsVal;
  listeners : list Callback;
}.

Record World : Type := {
  promises : list PromiseState;
  timers : gmap nat (number * Callback);
  next_timer : nat;
  signals : list AbortSignal;
  console : list string;
}.

Definition set_promises (f : list PromiseState → list PromiseState)
    (w : World) : World :=
  {| promises := f (promises w); timers := timers w; next_timer := next_timer w;
     signals := signals w; console := console w |}.

Definition set_timers (f : gmap nat (number * Callback) → gmap nat (number * Callback))
    (w : World) : World :=
  {| promises := promises w; timers := f (timers w); next_timer := next_timer w;
     signals := signals w; console := console w |}.

Definition set_signals (f : list AbortSignal → list AbortSignal) (w : World) : World :=
  {| promises := promises w; timers := timers w; next_timer := next_timer w;
     signals := f (signals w); console := console w |}.

(** *** Promises *)

(** [resolve] and [reject] settle a pending promise and do nothing on a
    settled one.  A response is not a thenable, so resolving with it
    fulfills. *)
Definition resolve (p : nat) (v : Resolved) (w : World) : World :=
  match promises w !! p with
  | Some Pending => set_promises <[p := Fulfilled v]> w
  | _ => w
  end.

Definition reject (p : nat) (r : JsVal) (w : World) : World :=
  match promises w !! p with
  | Some Pending => set_promises <[p := Rejected r]> w
  | _ => w
  end.

(** [new Promise(executor)]: the executor runs at once, with the
    [resolve] and [reject] of the new promise, here its handle. *)
Definition new_Promise (executor : nat → World → World) (w : World) : World * nat :=
  let p := length (promises w) in
  (executor p (set_promises (λ ps, ps ++ [Pending]) w), p).

(** [Promise.resolve(v)] for a value that is not a thenable. *)
Definition Promise_resolve (v : JsVal) (w : World) : World * nat :=
  new_Promise (λ p, resolve p (RValue v)) w.

(** *** Timers *)

Definition setTimeout (cb : Callback) (delay : number) (w : World) : World * nat :=
  let id := next_timer w in
  ({| promises := promises w; timers := <[id := (delay, cb)]> (timers w);
      next_timer := S id; signals := signals w; console := console w |}, id).

Definition clearTimeout (id : nat) (w : World) : World := set_timers (delete id) w.

(** *** Abort signals *)

Definition add_listener (cb : Callback) (s : AbortSignal) : AbortSignal :=
  {| aborted := aborted s; reason := reason s; listeners := listeners s ++ [cb] |}.

(** [signal.addEventListener("abort", cb)] *)
Definition addEventListener (sid : nat) (cb : Callback) (w : World) : World :=
  set_signals (alter (add_listener cb) sid) w.

(** [signal?.reason] *)
Definition signal_reason (sid : nat) (w : World) : JsVal :=
  default Undefined (reason <$> signals w !! sid).

(** *** Console *)

Definition console_warn (msg : string) (w : World) : World :=
  {| promises := promises w; timers := timers w; next_timer := next_timer w;
     signals := signals w; console := console w ++ [msg] |}.

(** ** The mocked fetch *)

(** [RequestInit]: the request function only ever reads [signal], which
    may be missing. *)
Record RequestInit : Type := {
  signal : option nat;
}.

(** The callback given to [setTimeout] (lines 89-127). *)
Definition on_timeout {A : Type} (mock : option Mock.t) (input : RequestInput)
    (resolve : Response.t → A) : A :=
  if (* mock?.status && mock.status >= 400 *)
     match mock_status mock with
     | Some s => number_truthy s && number_ge s (lit 400)
     | None => false
     end
     || (* !mock?.success && !!mock?.error *)
     (negb (ToBoolean (mock_success mock)) && negb (negb (ToBoolean (mock_error mock))))
  then
    let errData := coalesce (mock_error mock) defaultErrorResponse in
    let errResponse :=
      {| Response.url := input_toString input;
         Response.ok := false;
         Response.status := default (lit 400) (mock_status mock);
         Response.captured := errData |} in
    resolve errResponse
  else
    let data := coalesce (mock_success mock) defaultSuccessResponse in
    let response :=
      {| Response.url := input_toString input;
         Response.ok := true;
         Response.status := default (lit 200) (mock_status mock);
         Response.captured := data |} in
    resolve response.

(** The listener given to [addEventListener] (lines 131-135). *)
Definition on_abort (timeoutId sid : nat) (reject : JsVal → World → World)
    (w : World) : World :=
  let w := clearTimeout timeoutId w in
  reject (signal_reason sid w) w.

(** The function [unreadyFetch] returns (lines 84-138). *)
Definition request_function (mock : option Mock.t) (timout : number)
    (input : RequestInput) (init : option RequestInit) : World → World * nat :=
  new_Promise (λ p w,
    let '(w, timeoutId) := setTimeout (OnTimeout mock input p) timout w in
    match init ≫= signal with
    | Some sid => addEventListener sid (OnAbort timeoutId sid p) w
    | None => w
    end).

(** [unreadyFetch(mock, timout)]; a missing [timout] is 1000. *)
Definition unreadyFetch (mock : option Mock.t) (timout : option number) (w : World)
    : World * (RequestInput → option RequestInit → World → World * nat) :=
  let timout := default (lit 1000) timout in
  let w := console_warn
    "Unready fetch used! Please change to real fetch after API is ready!" w in
  (w, request_function mock timout).

(** The methods of a response. *)
Definition json (r : Response.t) : World → World * nat :=
  Promise_resolve (Response.captured r).

Section Text.
(** [JSON.stringify] is the host's: a string, or [undefined]. *)
Variable JSON_stringify : JsVal → JsVal.

Definition text (r : Response.t) : World → World * nat :=
  Promise_resolve (JSON_stringify (Response.captured r)).
End Text.

(** ** The event loop *)

(** The host calling back a closure it was given. *)
Definition run_callback (cb : Callback) (w : World) : World :=
  match cb with
  | OnTimeout mock input p => on_timeout mock input (λ r, resolve p (RResponse r)) w
  | OnAbort timeoutId sid p => on_abort timeoutId sid (reject p) w
  end.

(** What can happen, one turn at a time. *)
Inductive Event : Type :=
  (** the host fires timer [id], if it is still armed *)
  | TimerFires (id : nat)
  (** [controller.abort(reason)] on signal [sid]; [reason] is what the
      signal then holds *)
  | SignalAborts (sid : nat) (reason : JsVal)
  (** [new AbortController()] *)
  | SignalCreated
  (** [AbortSignal.abort(reason)]: a signal born aborted *)
  | AbortedSignalCreated (reason : JsVal)
  (** [unreadyFetch(mock, timout)] *)
  | FetchCreated (mock : option Mock.t) (timout : option number)
  (** a call of a function that [unreadyFetch(mock, timout)] returned *)
  | FetchCalled (mock : option Mock.t) (timout : number)
      (input : RequestInput) (init : option RequestInit)
  (** [Promise.resolve(v)], as [json()] and [text()] do *)
  | PromiseResolved (v : JsVal).

(** A timer is one-shot: it leaves the table, then its callback runs. *)
Definition fire_timer (id : nat) (w : World) : World :=
  match timers w !! id with
  | Some (_, cb) => run_callback cb (set_timers (delete id) w)
  | None => w
  end.

(** Aborting twice does nothing the second time.  The first time the
    signal records the reason and then its listeners run, in the order
    they were added. *)
Definition abort_signal (sid : nat) (r : JsVal) (w : World) : World :=
  match signals w !! sid with
  | Some s =>
      if aborted s then w
      else
        let s' := {| aborted := true; reason := r; listeners := listeners s |} in
        foldl (λ w cb, run_callback cb w) (set_signals <[sid := s']> w) (listeners s)
  | None => w
  end.

Definition new_signal (s : AbortSignal) (w : World) : World :=
  set_signals (λ ss, ss ++ [s]) w.

Definition step (e : Event) (w : World) : World :=
  match e with
  | TimerFires id => fire_timer id w
  | SignalAborts sid r => abort_signal sid r w
  | SignalCreated =>
      new_signal {| aborted := false; reason := Undefined; listeners := [] |} w
  | AbortedSignalCreated r =>
      new_signal {| aborted := true; reason := r; listeners := [] |} w
  | FetchCreated mock timout => (unreadyFetch mock timout w).1
  | FetchCalled mock timout input init => (request_function mock timout input init w).1
  | PromiseResolved v => (Promise_resolve v w).1
  end.

Definition run (es : list Event) (w : World) : World :=
  foldl (λ w e, step e w) w es.

(** The world before anything happened. *)
Definition initial : World :=
  {| promises := []; timers := ∅; next_timer := 0; signals := []; console := [] |}.

(** ** Vocabulary of the statements *)

(** The response the timer callback hands to [resolve]. *)
Definition response_of (mock : option Mock.t) (input : RequestInput) : Response.t :=
  on_timeout mock input id.

(** The handles a closure captured. *)
Definition cb_promise (cb : Callback) : nat :=
  match cb with
  | OnTimeout _ _ p | OnAbort _ _ p => p
  end.

Definition cb_timer (cb : Callback) : option nat :=
  match cb with
  | OnTimeout _ _ _ => None
  | OnAbort t _ _ => Some t
  end.

(** A closure can only have captured handles that existed when it was
    made. *)
Definition allocated (w : World) (cb : Callback) : Prop :=
  cb_promise cb < length (promises w) ∧ ∀ t, cb_timer cb = Some t → t < next_timer w.

Definition well_formed (w : World) : Prop :=
  (∀ t d cb, timers w !! t = Some (d, cb) → t < next_timer w ∧ allocated w cb) ∧
  (∀ s sg cb, signals w !! s = Some sg → cb ∈ listeners sg → allocated w cb).

(** A closure that belongs to some other invocation than the one with
    promise [p] and timer [tid]. *)
Definition foreign (p tid : nat) (cb : Callback) : Prop :=
  cb_promise cb ≠ p ∧ cb_timer cb ≠ Some tid.

(** Only the invocation's own two closures hold its promise and its timer:
    the timer callback sits at [tid], and the abort listener on the signal
    the invocation was given (if any). *)
Definition isolated (p tid : nat) (init : option RequestInit) (w : World) : Prop :=
  p < length (promises w) ∧ tid < next_timer w ∧
  (∀ t d cb, timers w !! t = Some (d, cb) → t ≠ tid → foreign p tid cb) ∧
  (∀ s sg cb, signals w !! s = Some sg → cb ∈ listeners sg →
     foreign p tid cb ∨ (init ≫= signal = Some s ∧ cb = OnAbort tid s p)).

(** The invocation is still waiting: promise pending, timer armed. *)
Definition armed (mock : option Mock.t) (timout : number) (input : RequestInput)
    (p tid : nat) (w : World) : Prop :=
  promises w !! p = Some Pending ∧
  timers w !! tid = Some (timout, OnTimeout mock input p).

(** Signal [sid] has not aborted yet and carries the invocation's listener. *)
Definition listening (p tid sid : nat) (w : World) : Prop :=
  ∃ sg, signals w !! sid = Some sg ∧ aborted sg = false ∧
        OnAbort tid sid p ∈ listeners sg.

(** Signal [sid] has aborted, for the reason [r]. *)
Definition has_aborted (sid : nat) (r : JsVal) (w : World) : Prop :=
  ∃ sg, signals w !! sid = Some sg ∧ aborted sg = true ∧ reason sg = r.

(** The invocation was aborted: promise rejected with [r], timer disarmed. *)
Definition rejected_with (p tid : nat) (r : JsVal) (w : World) : Prop :=
  promises w !! p = Some (Rejected r) ∧ timers w !! tid = None.

(** Event [e] is an abort of the signal the invocation was given. *)
Definition aborts_signal_of (init : option RequestInit) (e : Event) : bool :=
  match e, init ≫= signal with
  | SignalAborts sid _, Some sid' => bool_decide (sid = sid')
  | _, _ => false
  end.

Definition fires_timer (tid : nat) (e : Event) : bool :=
  match e with
  | TimerFires id => bool_decide (id = tid)
  | _ => false
  end.

(** A stretch of events during which the invocation's signal does not
    abort, and one during which its timer does not fire. *)
Definition no_abort (init : option RequestInit) (es : list Event) : bool :=
  forallb (λ e, negb (aborts_signal_of init e)) es.

Definition no_timer (tid : nat) (es : list Event) : bool :=
  forallb (λ e, negb (fires_timer tid e)) es.

(** [unreadyFetch(mock, timout)(input, init)] *)
Definition fetch_call (mock : option Mock.t) (timout : option number)
    (input : RequestInput) (init : option RequestInit) (w : World) : World * nat :=
  let '(w, fetch) := unreadyFetch mock timout w in
  fetch input init w.

(** The state of the promise that call returned, once the events [es]
    have happened after it. *)
Definition outcome (mock : option Mock.t) (timout : option number)
    (input : RequestInput) (init : option RequestInit) (w : World)
    (es : list Event) : option PromiseState :=
  let c := fetch_call mock timout input init w in
  promises (run es c.1) !! c.2.

(** The world after a history of events: every world the event loop can
    be in when a call is made. *)
Definition world_after (history : list Event) : World := run history initial.

(** A promise that is no longer pending. *)
Definition settled (st : PromiseState) : bool :=
  match st with
  | Pending => false
  | _ => true
  end.

(** The promise an operation returns is fulfilled with [v]. *)
Definition resolves_to (op : World → World * nat) (v : Resolved) : Prop :=
  ∀ w, promises (op w).1 !! (op w).2 = Some (Fulfilled v).

(** The message [unreadyFetch] sends to [console.warn]. *)
Definition warning : string :=
  "Unready fetch used! Please change to real fetch after API is ready!".

(** How many times [unreadyFetch] itself is called during [es]. *)
Definition factory_calls (es : list Event) : nat :=
  length (List.filter (λ e, match e with FetchCreated _ _ => true | _ => false end) es).

(** Signal [sid] carries the listener [cb]. *)
Definition has_listener (sid : nat) (cb : Callback) (w : World) : Prop :=
  ∃ sg, signals w !! sid = Some sg ∧ cb ∈ listeners sg.

(** [v === undefined] *)
Definition is_undefined (v : JsVal) : bool :=
  match v with
  | Undefined => true
  | _ => false
  end.

(** The specs on which the second test of the timer callback,
    [!mock?.success && !!mock?.error], does not do what the comment above
    it says (``mock success not set but mock error is set''), while
    [status] does not settle the branch: [success] is set to a falsy value
    and [error] is truthy, or [success] is not set and [error] is set to a
    falsy value. *)
Definition departs_from_comment (mock : option Mock.t) : bool :=
  negb match mock_status mock with
       | Some s => number_ge s (lit 400)
       | None => false
       end
  && if is_undefined (mock_success mock)
     then negb (is_undefined (mock_error mock)) && negb (ToBoolean (mock_error mock))
     else negb (ToBoolean (mock_success mock)) && ToBoolean (mock_error mock).

(** * Facts *)

(** ** Numbers and coercions *)

#[local] Arguments lit : simpl never.

Lemma number_ge_truthy (s : number) :
  number_ge s (lit 400) = true → number_truthy s = true.
Proof. by destruct s as [ | | |[]]. Qed.

Lemma number_lt_not_ge (s t : number) :
  number_lt s t = true → number_ge s t = false.
Proof.
  unfold number_lt, SFltb, number_ge.
  by destruct (SFcompare s t) as [[]|].
Qed.

Lemma coalesce_keep (v d : JsVal) : nullish v = false → coalesce v d = v.
Proof. unfold coalesce. by intros ->. Qed.

Lemma coalesce_default (v d : JsVal) : nullish v = true → coalesce v d = d.
Proof. unfold coalesce. by intros ->. Qed.

(** ** The timer callback *)

(** Whatever [resolve] is, the callback calls it exactly once, on
    [response_of]. *)
Lemma on_timeout_resolve {A : Type} mock input (resolve : Response.t → A) :
  on_timeout mock input resolve = resolve (response_of mock input).
Proof. unfold response_of, on_timeout. by case_match. Qed.

Lemma response_url mock input :
  Response.url (response_of mock input) = input_toString input.
Proof. unfold response_of, on_timeout. by case_match. Qed.

(** When the answer is an error. *)
Lemma response_ok_false mock input :
  Response.ok (response_of mock input) = false ↔
  (∃ s, mock_status mock = Some s ∧ number_ge s (lit 400) = true) ∨
  (ToBoolean (mock_success mock) = false ∧ ToBoolean (mock_error mock) = true).
Proof.
  unfold response_of, on_timeout.
  destruct (mock_status mock) as [s|] eqn:Hs; simpl.
  - destruct (number_ge s (lit 400)) eqn:Hge.
    + rewrite (number_ge_truthy s Hge). simpl. split; [|done]. intros _. left. eauto.
    + rewrite andb_false_r. simpl.
      destruct (ToBoolean (mock_success mock)), (ToBoolean (mock_error mock));
        simpl; split; try done; try (intros [(s' & ? & ?)|[??]]; congruence).
      intros _. by right.
  - destruct (ToBoolean (mock_success mock)), (ToBoolean (mock_error mock));
      simpl; split; try done; try (intros [(s' & ? & ?)|[??]]; congruence).
    intros _. by right.
Qed.

Lemma response_error_branch mock input :
  Response.ok (response_of mock input) = false →
  Response.status (response_of mock input) = default (lit 400) (mock_status mock) ∧
  Response.captured (response_of mock input)
    = coalesce (mock_error mock) defaultErrorResponse.
Proof. unfold response_of, on_timeout. by case_match. Qed.

Lemma response_success_branch mock input :
  Response.ok (response_of mock input) = true →
  Response.status (response_of mock input) = default (lit 200) (mock_status mock) ∧
  Response.captured (response_of mock input)
    = coalesce (mock_success mock) defaultSuccessResponse.
Proof. unfold response_of, on_timeout. by case_match. Qed.

Lemma response_ok_true mock input :
  Response.ok (response_of mock input) = true ↔
  (∀ s, mock_status mock = Some s → number_ge s (lit 400) = false) ∧
  (ToBoolean (mock_success mock) = true ∨ ToBoolean (mock_error mock) = false).
Proof.
  rewrite <-not_false_iff_true, response_ok_false. split.
  - intros Hn. split.
    + intros s Hs. destruct (number_ge s (lit 400)) eqn:?; [|done].
      destruct Hn. left. eauto.
    + destruct (ToBoolean (mock_success mock)) eqn:?; [by left|].
      destruct (ToBoolean (mock_error mock)) eqn:?; [|by right].
      destruct Hn. by right.
  - intros [H1 H2] [(s & Hs & Hge)|[Hs He]].
    + rewrite (H1 s Hs) in Hge. done.
    + destruct H2; congruence.
Qed.

(** ** Host operations: what each one touches *)

Lemma resolve_pending p v w :
  promises w !! p = Some Pending →
  promises (resolve p v w) !! p = Some (Fulfilled v).
Proof.
  intros Hp. unfold resolve. rewrite Hp. simpl.
  apply list_lookup_insert_eq. by eapply lookup_lt_Some.
Qed.

Lemma reject_pending p r w :
  promises w !! p = Some Pending →
  promises (reject p r w) !! p = Some (Rejected r).
Proof.
  intros Hp. unfold reject. rewrite Hp. simpl.
  apply list_lookup_insert_eq. by eapply lookup_lt_Some.
Qed.

Lemma resolve_settled p v w q st :
  promises w !! q = Some st → settled st = true →
  promises (resolve p v w) !! q = Some st.
Proof.
  intros Hq Hst. unfold resolve.
  destruct (promises w !! p) as [[]|] eqn:Hp; try done. simpl.
  rewrite list_lookup_insert_ne; [done|]. intros ->.
  rewrite Hq in Hp. by simplify_eq.
Qed.

Lemma reject_settled p r w q st :
  promises w !! q = Some st → settled st = true →
  promises (reject p r w) !! q = Some st.
Proof.
  intros Hq Hst. unfold reject.
  destruct (promises w !! p) as [[]|] eqn:Hp; try done. simpl.
  rewrite list_lookup_insert_ne; [done|]. intros ->.
  rewrite Hq in Hp. by simplify_eq.
Qed.

Lemma resolve_other p v w q :
  q ≠ p → promises (resolve p v w) !! q = promises w !! q.
Proof.
  intros Hne. unfold resolve. repeat case_match; try done.
  simpl. by rewrite list_lookup_insert_ne.
Qed.

Lemma reject_other p r w q :
  q ≠ p → promises (reject p r w) !! q = promises w !! q.
Proof.
  intros Hne. unfold reject. repeat case_match; try done.
  simpl. by rewrite list_lookup_insert_ne.
Qed.

(** Settling changes one cell of the promise table and nothing else. *)
Lemma resolve_frame p v w :
  length (promises (resolve p v w)) = length (promises w) ∧
  timers (resolve p v w) = timers w ∧
  next_timer (resolve p v w) = next_timer w ∧
  signals (resolve p v w) = signals w.
Proof.
  unfold resolve. repeat case_match; try done. simpl. by rewrite length_insert.
Qed.

Lemma reject_frame p r w :
  length (promises (reject p r w)) = length (promises w) ∧
  timers (reject p r w) = timers w ∧
  next_timer (reject p r w) = next_timer w ∧
  signals (reject p r w) = signals w.
Proof.
  unfold reject. repeat case_match; try done. simpl. by rewrite length_insert.
Qed.

(** ** Running a closure *)

(** A closure never touches a signal, never arms a timer and never
    creates a promise. *)
Lemma run_callback_frame cb w :
  length (promises (run_callback cb w)) = length (promises w) ∧
  next_timer (run_callback cb w) = next_timer w ∧
  signals (run_callback cb w) = signals w.
Proof.
  destruct cb as [mock input p|t sid p]; simpl.
  - rewrite on_timeout_resolve.
    by destruct (resolve_frame p (RResponse (response_of mock input)) w) as (?&?&?&?).
  - unfold on_abort.
    by destruct (reject_frame p (signal_reason sid (clearTimeout t w)) (clearTimeout t w))
      as (?&?&?&?).
Qed.

(** The only timer a closure may disarm is the one it captured. *)
Lemma run_callback_timers cb w t :
  timers (run_callback cb w) !! t
  = if decide (cb_timer cb = Some t) then None else timers w !! t.
Proof.
  destruct cb as [mock input p|t' sid p]; simpl.
  - rewrite on_timeout_resolve.
    by destruct (resolve_frame p (RResponse (response_of mock input)) w) as (_&->&_).
  - unfold on_abort.
    destruct (reject_frame p (signal_reason sid (clearTimeout t' w)) (clearTimeout t' w))
      as (_&->&_).
    simpl. case_decide; simplify_eq.
    + apply lookup_delete_eq.
    + apply lookup_delete_ne. congruence.
Qed.

Lemma run_callback_timers_sub cb w t x :
  timers (run_callback cb w) !! t = Some x → timers w !! t = Some x.
Proof. rewrite run_callback_timers. by case_decide. Qed.

(** The only promise a closure may settle is the one it captured. *)
Lemma run_callback_other cb w q :
  cb_promise cb ≠ q → promises (run_callback cb w) !! q = promises w !! q.
Proof.
  intros Hne. destruct cb as [mock input p|t sid p]; simpl in *.
  - rewrite on_timeout_resolve. by apply resolve_other.
  - unfold on_abort. by rewrite reject_other.
Qed.

(** No closure unsettles or re-settles a promise. *)
Lemma run_callback_settled cb w q st :
  promises w !! q = Some st → settled st = true →
  promises (run_callback cb w) !! q = Some st.
Proof.
  intros Hq Hst. destruct cb as [mock input p|t sid p]; simpl.
  - rewrite on_timeout_resolve. by apply resolve_settled.
  - unfold on_abort. by apply reject_settled.
Qed.

Lemma run_on_timeout mock input p w :
  promises w !! p = Some Pending →
  promises (run_callback (OnTimeout mock input p) w) !! p
  = Some (Fulfilled (RResponse (response_of mock input))).
Proof. intros Hp. simpl. rewrite on_timeout_resolve. by apply resolve_pending. Qed.

Lemma run_on_abort tid sid p w :
  promises w !! p = Some Pending →
  promises (run_callback (OnAbort tid sid p) w) !! p
  = Some (Rejected (signal_reason sid w)).
Proof. intros Hp. simpl. unfold on_abort. by apply reject_pending. Qed.

(** A property every closure preserves survives a whole dispatch. *)
Lemma dispatch_ind (I : World → Prop) (l : list Callback) (w : World) :
  (∀ cb w', cb ∈ l → I w' → I (run_callback cb w')) →
  I w → I (foldl (λ w cb, run_callback cb w) w l).
Proof.
  revert w. induction l as [|cb l IH]; intros w Hstep Hw; [done|].
  simpl. apply IH.
  - intros cb' w' Hin. apply Hstep. by right.
  - apply Hstep; [by left|done].
Qed.

(** ** One call of the request function *)

(** The world a call leaves behind, written out: one more promise, one
    more timer, and one more listener when a signal was supplied. *)
Lemma request_function_unfold mock timout input init w :
  request_function mock timout input init w =
  ({| promises := promises w ++ [Pending];
      timers := <[next_timer w := (timout, OnTimeout mock input (length (promises w)))]>
                  (timers w);
      next_timer := S (next_timer w);
      signals :=
        match init ≫= signal with
        | Some sid =>
            alter (add_listener (OnAbort (next_timer w) sid (length (promises w))))
              sid (signals w)
        | None => signals w
        end;
      console := console w |},
   length (promises w)).
Proof.
  unfold request_function, new_Promise. simpl.
  by destruct (init ≫= signal).
Qed.

Lemma Promise_resolve_unfold v w :
  Promise_resolve v w =
  ({| promises := promises w ++ [Fulfilled (RValue v)];
      timers := timers w; next_timer := next_timer w;
      signals := signals w; console := console w |},
   length (promises w)).
Proof.
  unfold Promise_resolve, new_Promise, resolve. simpl.
  rewrite lookup_app_r, Nat.sub_diag by done. simpl.
  unfold set_promises. simpl. f_equal. f_equal.
  rewrite insert_app_r_alt, Nat.sub_diag by done. done.
Qed.

(** ** One turn of the event loop *)

Lemma run_app es es' w : run (es ++ es') w = run es' (run es w).
Proof. apply foldl_app. Qed.

Lemma run_cons e es w : run (e :: es) w = run es (step e w).
Proof. done. Qed.

(** At most once: whatever happens, a settled promise stays as it is. *)
Lemma step_settled e w q st :
  promises w !! q = Some st → settled st = true →
  promises (step e w) !! q = Some st.
Proof.
  intros Hq Hst.
  destruct e as [id|sid r| |r|mock timout|mock timout input init|v]; cbn [step].
  - unfold fire_timer. destruct (timers w !! id) as [[d cb]|]; [|done].
    by apply run_callback_settled.
  - unfold abort_signal. destruct (signals w !! sid) as [s|]; [|done].
    destruct (aborted s); [done|].
    apply (dispatch_ind (λ w', promises w' !! q = Some st)); [|done].
    intros cb w' _ Hw'. by apply run_callback_settled.
  - done.
  - done.
  - done.
  - rewrite request_function_unfold. simpl. by apply lookup_app_l_Some.
  - rewrite Promise_resolve_unfold. simpl. by apply lookup_app_l_Some.
Qed.

Lemma run_settled es w q st :
  promises w !! q = Some st → settled st = true →
  promises (run es w) !! q = Some st.
Proof.
  revert w. induction es as [|e es IH]; intros w Hq Hst; [done|].
  rewrite run_cons. apply IH; [|done]. by apply step_settled.
Qed.

(** Timer handles are never handed out twice: a timer that is gone stays
    gone. *)
Lemma step_timer_gone e w tid :
  tid < next_timer w → timers w !! tid = None →
  tid < next_timer (step e w) ∧ timers (step e w) !! tid = None.
Proof.
  intros Hlt Hnone.
  destruct e as [id|sid r| |r|mock timout|mock timout input init|v]; cbn [step];
    try done.
  - unfold fire_timer. destruct (timers w !! id) as [[d cb]|]; [|done].
    destruct (run_callback_frame cb (set_timers (delete id) w)) as (_&->&_).
    split; [done|]. rewrite run_callback_timers. case_decide; [done|].
    simpl. rewrite lookup_delete. by case_decide.
  - unfold abort_signal. destruct (signals w !! sid) as [s|]; [|done].
    destruct (aborted s); [done|].
    apply (dispatch_ind (λ w', tid < next_timer w' ∧ timers w' !! tid = None));
      [|done].
    intros cb w' _ [? ?].
    destruct (run_callback_frame cb w') as (_&->&_). split; [done|].
    rewrite run_callback_timers. by case_decide.
  - rewrite request_function_unfold. simpl. split; [lia|].
    rewrite lookup_insert_ne; [done|lia].
  - by rewrite Promise_resolve_unfold.
Qed.

Lemma run_timer_gone es w tid :
  tid < next_timer w → timers w !! tid = None →
  timers (run es w) !! tid = None.
Proof.
  revert w. induction es as [|e es IH]; intros w Hlt Hnone; [done|].
  rewrite run_cons. destruct (step_timer_gone e w tid Hlt Hnone). by apply IH.
Qed.

(** ** One invocation among everything else

    Throughout, [p] and [tid] are the promise and the timer of one call
    [request_function mock timout input init]. *)

Section Invocation.
Context (mock : option Mock.t) (timout : number) (input : RequestInput)
        (init : option RequestInit) (p tid : nat).

(** *** Isolation is kept by every event *)

Lemma run_callback_isolated cb w :
  isolated p tid init w → isolated p tid init (run_callback cb w).
Proof.
  intros (Hp & Ht & Htm & Hls).
  destruct (run_callback_frame cb w) as (Hl & Hn & Hs).
  split_and!.
  - by rewrite Hl.
  - by rewrite Hn.
  - intros t d cb' Hlook. apply run_callback_timers_sub in Hlook. eauto.
  - by rewrite Hs.
Qed.

Lemma step_isolated e w : isolated p tid init w → isolated p tid init (step e w).
Proof.
  intros Hiso. pose proof Hiso as (Hp & Ht & Htm & Hls).
  destruct e as [id|sid r| |r|mock' timout'|mock' timout' input' init'|v]; cbn [step].
  - unfold fire_timer. destruct (timers w !! id) as [[d cb]|]; [|done].
    apply run_callback_isolated. split_and!; try done.
    intros t d' cb' Hlook. simpl in Hlook.
    apply lookup_delete_Some in Hlook as [_ Hlook]. eauto.
  - unfold abort_signal. destruct (signals w !! sid) as [s|] eqn:Hsid; [|done].
    destruct (aborted s); [done|].
    apply (dispatch_ind (isolated p tid init)).
    { intros cb w' _. apply run_callback_isolated. }
    split_and!; try done.
    intros s' sg cb Hlook Hin. simpl in Hlook.
    destruct (decide (s' = sid)) as [->|Hne].
    + rewrite list_lookup_insert_eq in Hlook by (by eapply lookup_lt_Some).
      simplify_eq. simpl in Hin. eauto.
    + rewrite list_lookup_insert_ne in Hlook by done. eauto.
  - split_and!; try done. intros s sg cb Hlook Hin. simpl in Hlook.
    apply lookup_app_Some in Hlook as [Hlook|[_ Hlook]]; [eauto|].
    apply list_lookup_singleton_Some in Hlook as [_ <-].
    simpl in Hin. by apply elem_of_nil in Hin.
  - split_and!; try done. intros s sg cb Hlook Hin. simpl in Hlook.
    apply lookup_app_Some in Hlook as [Hlook|[_ Hlook]]; [eauto|].
    apply list_lookup_singleton_Some in Hlook as [_ <-].
    simpl in Hin. by apply elem_of_nil in Hin.
  - done.
  - rewrite request_function_unfold. split_and!; simpl.
    + rewrite length_app. simpl. lia.
    + lia.
    + intros t d cb Hlook Hne.
      apply lookup_insert_Some in Hlook as [[<- Heq]|[_ Hlook]]; [|eauto].
      simplify_eq. split; simpl; [lia|done].
    + intros s sg cb Hlook Hin.
      destruct (init' ≫= signal) as [sid|]; [|eauto].
      rewrite list_lookup_alter in Hlook. case_decide as Hsid; [|eauto]. subst s.
      destruct (signals w !! sid) as [sg0|] eqn:Hsg0; simplify_eq/=.
      apply elem_of_app in Hin as [Hin|Hin]; [eauto|].
      apply list_elem_of_singleton in Hin as ->.
      left. split; simpl; [lia|]. intros [= ?]. lia.
  - rewrite Promise_resolve_unfold. split_and!; simpl; try done.
    rewrite length_app. simpl. lia.
Qed.

Lemma run_isolated es w : isolated p tid init w → isolated p tid init (run es w).
Proof.
  revert w. induction es as [|e es IH]; intros w Hw; [done|].
  rewrite run_cons. by apply IH, step_isolated.
Qed.

(** *** The invocation keeps waiting while nothing concerns it *)

Lemma run_callback_armed cb w :
  foreign p tid cb → armed mock timout input p tid w →
  armed mock timout input p tid (run_callback cb w).
Proof.
  intros [Hp Ht] [Hpend Htm]. split.
  - by rewrite run_callback_other.
  - rewrite run_callback_timers. by case_decide.
Qed.

Lemma step_armed e w :
  isolated p tid init w → armed mock timout input p tid w →
  fires_timer tid e = false → aborts_signal_of init e = false →
  armed mock timout input p tid (step e w).
Proof.
  intros (Hp & Ht & Htm & Hls) [Hpend Harm] Hfire Habort.
  destruct e as [id|sid r| |r|mock' timout'|mock' timout' input' init'|v]; cbn [step].
  - simpl in Hfire. apply bool_decide_eq_false in Hfire.
    unfold fire_timer. destruct (timers w !! id) as [[d cb]|] eqn:Hid; [|done].
    apply run_callback_armed; [by eapply Htm|].
    split; simpl; [done|]. by rewrite lookup_delete_ne.
  - unfold abort_signal. destruct (signals w !! sid) as [s|] eqn:Hsid; [|done].
    destruct (aborted s); [done|].
    apply (dispatch_ind (armed mock timout input p tid)); [|done].
    intros cb w' Hin. apply run_callback_armed.
    destruct (Hls sid s cb Hsid Hin) as [?|[Hinit _]]; [done|].
    simpl in Habort. rewrite Hinit in Habort.
    by rewrite bool_decide_eq_true_2 in Habort.
  - done.
  - done.
  - done.
  - rewrite request_function_unfold. split; simpl.
    + by apply lookup_app_l_Some.
    + rewrite lookup_insert_ne; [done|lia].
  - rewrite Promise_resolve_unfold. split; simpl; [|done].
    by apply lookup_app_l_Some.
Qed.

(** The timer fires first: the promise is resolved with the response. *)
Lemma armed_timer_fires w :
  armed mock timout input p tid w →
  promises (step (TimerFires tid) w) !! p
  = Some (Fulfilled (RResponse (response_of mock input))).
Proof.
  intros [Hpend Harm]. cbn [step]. unfold fire_timer. rewrite Harm.
  by apply run_on_timeout.
Qed.
End Invocation.

(** ** Signals *)

(** An aborted signal stays aborted and keeps its reason. *)
Lemma step_has_aborted e w sid r :
  has_aborted sid r w → has_aborted sid r (step e w).
Proof.
  intros (sg & Hsg & Hab & Hr).
  destruct e as [id|sid' r'| |r'|mock timout|mock timout input init|v]; cbn [step].
  - unfold fire_timer. destruct (timers w !! id) as [[d cb]|]; [|by exists sg].
    destruct (run_callback_frame cb (set_timers (delete id) w)) as (_&_&Hs).
    exists sg. by rewrite Hs.
  - unfold abort_signal. destruct (signals w !! sid') as [s|] eqn:Hsid'; [|by exists sg].
    destruct (aborted s) eqn:Hs; [by exists sg|].
    assert (sid' ≠ sid) as Hne by (intros ->; congruence).
    apply (dispatch_ind (has_aborted sid r)).
    + intros cb w' _ (sg' & ? & ? & ?).
      destruct (run_callback_frame cb w') as (_&_&Hs'). exists sg'. by rewrite Hs'.
    + exists sg. simpl. by rewrite list_lookup_insert_ne.
  - exists sg. simpl. split; [|done]. by apply lookup_app_l_Some.
  - exists sg. simpl. split; [|done]. by apply lookup_app_l_Some.
  - by exists sg.
  - rewrite request_function_unfold. simpl.
    destruct (init ≫= signal) as [sid'|]; [|by exists sg].
    destruct (decide (sid' = sid)) as [->|Hne].
    + exists (add_listener (OnAbort (next_timer w) sid (length (promises w))) sg).
      simpl. by rewrite list_lookup_alter_eq, Hsg.
    + exists sg. simpl. by rewrite list_lookup_alter_ne.
  - rewrite Promise_resolve_unfold. by exists sg.
Qed.

Lemma run_has_aborted es w sid r :
  has_aborted sid r w → has_aborted sid r (run es w).
Proof.
  revert w. induction es as [|e es IH]; intros w Hw; [done|].
  rewrite run_cons. by apply IH, step_has_aborted.
Qed.

(** A live signal stays live, and keeps its listeners, until it aborts. *)
Lemma step_listening e w p tid sid :
  listening p tid sid w → (∀ r, e ≠ SignalAborts sid r) →
  listening p tid sid (step e w).
Proof.
  intros (sg & Hsg & Hab & Hin) Hne.
  destruct e as [id|sid' r'| |r'|mock timout|mock timout input init|v]; cbn [step].
  - unfold fire_timer. destruct (timers w !! id) as [[d cb]|]; [|by exists sg].
    destruct (run_callback_frame cb (set_timers (delete id) w)) as (_&_&Hs).
    exists sg. by rewrite Hs.
  - assert (sid' ≠ sid) as Hne' by (intros ->; by destruct (Hne r')).
    unfold abort_signal. destruct (signals w !! sid') as [s|] eqn:Hsid'; [|by exists sg].
    destruct (aborted s) eqn:Hs; [by exists sg|].
    apply (dispatch_ind (listening p tid sid)).
    + intros cb w' _ (sg' & ? & ? & ?).
      destruct (run_callback_frame cb w') as (_&_&Hs'). exists sg'. by rewrite Hs'.
    + exists sg. simpl. by rewrite list_lookup_insert_ne.
  - exists sg. simpl. split; [|done]. by apply lookup_app_l_Some.
  - exists sg. simpl. split; [|done]. by apply lookup_app_l_Some.
  - by exists sg.
  - rewrite request_function_unfold. simpl.
    destruct (init ≫= signal) as [sid'|]; [|by exists sg].
    destruct (decide (sid' = sid)) as [->|Hne'].
    + exists (add_listener (OnAbort (next_timer w) sid (length (promises w))) sg).
      simpl. rewrite list_lookup_alter_eq, Hsg. simpl. split_and!; try done.
      apply elem_of_app. by left.
    + exists sg. simpl. by rewrite list_lookup_alter_ne.
  - rewrite Promise_resolve_unfold. by exists sg.
Qed.

(** ** The abort listener *)

Section Abort.
Context (mock : option Mock.t) (timout : number) (input : RequestInput)
        (init : option RequestInit) (p tid sid : nat) (r : JsVal).

Lemma run_callback_signal_reason cb w :
  signal_reason sid (run_callback cb w) = signal_reason sid w.
Proof.
  unfold signal_reason. by destruct (run_callback_frame cb w) as (_&_&->).
Qed.

(** Once aborted, always aborted. *)
Lemma run_callback_rejected_with cb w :
  rejected_with p tid r w → rejected_with p tid r (run_callback cb w).
Proof.
  intros [Hrej Hnone]. split.
  - by apply run_callback_settled.
  - rewrite run_callback_timers. by case_decide.
Qed.

(** The invocation's own listener: disarm, then reject with what the
    signal holds. *)
Lemma run_own_listener w :
  signal_reason sid w = r →
  armed mock timout input p tid w ∨ rejected_with p tid r w →
  rejected_with p tid r (run_callback (OnAbort tid sid p) w).
Proof.
  intros Hr [[Hpend Harm]|Hrej]; [|by apply run_callback_rejected_with].
  split.
  - rewrite run_on_abort by done. by rewrite Hr.
  - rewrite run_callback_timers. simpl. by rewrite decide_True.
Qed.

(** A dispatch over listeners that are the invocation's own or foreign. *)
Lemma dispatch_abort (l : list Callback) (w : World) :
  (∀ cb, cb ∈ l → foreign p tid cb ∨ cb = OnAbort tid sid p) →
  signal_reason sid w = r →
  armed mock timout input p tid w ∨ rejected_with p tid r w →
  let w' := foldl (λ w cb, run_callback cb w) w l in
  (armed mock timout input p tid w' ∨ rejected_with p tid r w') ∧
  (OnAbort tid sid p ∈ l → rejected_with p tid r w').
Proof.
  revert w. induction l as [|cb l IH]; intros w Hl Hr HJ; simpl.
  { split; [done|]. intros Hin. by apply elem_of_nil in Hin. }
  assert (armed mock timout input p tid (run_callback cb w)
          ∨ rejected_with p tid r (run_callback cb w)) as HJ'.
  { destruct (Hl cb) as [Hf|Heq]; [by left| |].
    - destruct HJ as [Ha|Hk].
      + left. by apply run_callback_armed.
      + right. by apply run_callback_rejected_with.
    - subst cb. right. by apply run_own_listener. }
  destruct (IH (run_callback cb w)) as [IH1 IH2].
  { intros cb' Hin. apply Hl. by right. }
  { by rewrite run_callback_signal_reason. }
  { done. }
  split; [done|].
  intros [<-|Hin]%elem_of_cons; [|by apply IH2].
  apply (dispatch_ind (rejected_with p tid r)).
  - intros cb' w' _. apply run_callback_rejected_with.
  - by apply run_own_listener.
Qed.

(** What an abort of the invocation's signal does to a waiting
    invocation. *)
Lemma abort_cases w :
  isolated p tid init w → armed mock timout input p tid w →
  init ≫= signal = Some sid →
  let w' := step (SignalAborts sid r) w in
  (armed mock timout input p tid w' ∨ rejected_with p tid r w') ∧
  (listening p tid sid w → rejected_with p tid r w').
Proof.
  intros (Hp & Ht & Htm & Hls) Harm Hinit. cbn [step]. unfold abort_signal.
  destruct (signals w !! sid) as [sg|] eqn:Hsg.
  2:{ split; [by left|]. intros (sg & ? & _). congruence. }
  destruct (aborted sg) eqn:Hab.
  { split; [by left|]. intros (sg' & ? & ? & _). congruence. }
  set (w0 := set_signals _ w).
  destruct (dispatch_abort (listeners sg) w0) as [H1 H2].
  - intros cb Hin. destruct (Hls sid sg cb Hsg Hin) as [?|[_ ->]]; eauto.
  - unfold signal_reason, w0. simpl.
    rewrite list_lookup_insert_eq by (by eapply lookup_lt_Some). done.
  - by left.
  - split; [done|]. intros (sg' & Hsg' & _ & Hin). apply H2. congruence.
Qed.

End Abort.

(** The three things one event can do to a waiting invocation: leave it
    waiting, resolve it (the timer), or reject it (the signal). *)
Lemma step_cases mock timout input init p tid e w :
  isolated p tid init w → armed mock timout input p tid w →
  armed mock timout input p tid (step e w) ∨
  (e = TimerFires tid ∧
   promises (step e w) !! p = Some (Fulfilled (RResponse (response_of mock input)))) ∨
  (∃ sid' r', e = SignalAborts sid' r' ∧ init ≫= signal = Some sid' ∧
              rejected_with p tid r' (step e w)).
Proof.
  intros Hiso Harm.
  destruct (fires_timer tid e) eqn:Hfire.
  { destruct e; simpl in Hfire; try done.
    apply bool_decide_eq_true in Hfire as ->.
    right. left. split; [done|]. by eapply armed_timer_fires. }
  destruct (aborts_signal_of init e) eqn:Hab.
  2:{ left. by eapply step_armed. }
  destruct e as [|sid' r'| | | | |]; simpl in Hab; try done.
  destruct (init ≫= signal) as [sid''|] eqn:Hinit; [|done].
  apply bool_decide_eq_true in Hab as <-.
  destruct (abort_cases mock timout input init p tid sid' r' w) as [[H1|H1] _];
    try done.
  - by left.
  - right. right. eauto.
Qed.

(** ** Well-formed worlds *)

Lemma allocated_mono w w' cb :
  length (promises w) ≤ length (promises w') → next_timer w ≤ next_timer w' →
  allocated w cb → allocated w' cb.
Proof.
  intros Hl Hn [Hp Ht]. split; [lia|]. intros t Heq. specialize (Ht t Heq). lia.
Qed.

Lemma well_formed_initial : well_formed initial.
Proof. split; intros ???; simpl; by rewrite ?lookup_empty, ?lookup_nil. Qed.

Lemma run_callback_well_formed cb w : well_formed w → well_formed (run_callback cb w).
Proof.
  intros [Htm Hls]. destruct (run_callback_frame cb w) as (Hl & Hn & Hs). split.
  - intros t d cb' Hlook%run_callback_timers_sub.
    destruct (Htm t d cb' Hlook) as [? Hal]. split; [lia|].
    eapply allocated_mono; [| |done]; lia.
  - rewrite Hs. intros s sg cb' Hlook Hin.
    eapply allocated_mono; [| |by eapply Hls]; lia.
Qed.

Lemma step_well_formed e w : well_formed w → well_formed (step e w).
Proof.
  intros Hwf. pose proof Hwf as [Htm Hls].
  destruct e as [id|sid r| |r|mock timout|mock timout input init|v]; cbn [step].
  - unfold fire_timer. destruct (timers w !! id) as [[d cb]|]; [|done].
    apply run_callback_well_formed. split; [|done].
    intros t d' cb' Hlook. simpl in Hlook.
    apply lookup_delete_Some in Hlook as [_ Hlook]. by apply Htm in Hlook.
  - unfold abort_signal. destruct (signals w !! sid) as [s|] eqn:Hsid; [|done].
    destruct (aborted s); [done|].
    apply (dispatch_ind well_formed).
    { intros cb w' _. apply run_callback_well_formed. }
    split; [done|].
    intros s' sg cb Hlook Hin. simpl in Hlook.
    destruct (decide (s' = sid)) as [->|Hne].
    + rewrite list_lookup_insert_eq in Hlook by (by eapply lookup_lt_Some).
      simplify_eq. by eapply Hls.
    + rewrite list_lookup_insert_ne in Hlook by done. by eapply Hls.
  - split; [done|]. intros s sg cb Hlook Hin. simpl in Hlook.
    apply lookup_app_Some in Hlook as [Hlook|[_ Hlook]]; [by eapply Hls|].
    apply list_lookup_singleton_Some in Hlook as [_ <-].
    simpl in Hin. by apply elem_of_nil in Hin.
  - split; [done|]. intros s sg cb Hlook Hin. simpl in Hlook.
    apply lookup_app_Some in Hlook as [Hlook|[_ Hlook]]; [by eapply Hls|].
    apply list_lookup_singleton_Some in Hlook as [_ <-].
    simpl in Hin. by apply elem_of_nil in Hin.
  - done.
  - rewrite request_function_unfold.
    set (w' := {| promises := _ |}).
    assert (length (promises w) ≤ length (promises w')) as Hl.
    { simpl. rewrite length_app. lia. }
    assert (next_timer w ≤ next_timer w') as Hn by (simpl; lia).
    split.
    + intros t d cb Hlook. simpl in Hlook.
      apply lookup_insert_Some in Hlook as [[<- Heq]|[_ Hlook]].
      * simplify_eq. split; [simpl; lia|]. split; simpl; [|done].
        rewrite length_app. simpl. lia.
      * destruct (Htm t d cb Hlook). split; [simpl; lia|].
        by eapply allocated_mono.
    + intros s sg cb Hlook Hin. simpl in Hlook.
      destruct (init ≫= signal) as [sid|].
      2:{ eapply allocated_mono; [| |by eapply Hls]; done. }
      rewrite list_lookup_alter in Hlook. case_decide as Hsid.
      2:{ eapply allocated_mono; [| |by eapply Hls]; done. }
      subst s. destruct (signals w !! sid) as [sg0|] eqn:Hsg0; simplify_eq/=.
      apply elem_of_app in Hin as [Hin|Hin].
      { eapply allocated_mono; [| |by eapply Hls]; done. }
      apply list_elem_of_singleton in Hin as ->.
      split; simpl; [rewrite length_app; simpl; lia|].
      intros t [= <-]. lia.
  - rewrite Promise_resolve_unfold. split.
    + intros t d cb Hlook. simpl in Hlook. destruct (Htm t d cb Hlook).
      split; [done|]. eapply allocated_mono; [| |done]; simpl; [|done].
      rewrite length_app. lia.
    + intros s sg cb Hlook Hin. simpl in Hlook.
      eapply allocated_mono; [| |by eapply Hls]; simpl; [|done].
      rewrite length_app. lia.
Qed.

(** Every world the event loop can reach is well-formed. *)
Lemma run_well_formed es w : well_formed w → well_formed (run es w).
Proof.
  revert w. induction es as [|e es IH]; intros w Hw; [done|].
  rewrite run_cons. by apply IH, step_well_formed.
Qed.

(** ** Right after the call *)

Section Call.
Context (mock : option Mock.t) (timout : number) (input : RequestInput)
        (init : option RequestInit) (w : World).

(** The promise is pending and the timer armed. *)
Lemma request_armed :
  armed mock timout input (length (promises w)) (next_timer w)
    (request_function mock timout input init w).1.
Proof.
  rewrite request_function_unfold. split; simpl.
  - by rewrite lookup_app_r, Nat.sub_diag.
  - apply lookup_insert_eq.
Qed.

(** Nothing that existed before the call knows the new promise or the
    new timer. *)
Lemma request_isolated :
  well_formed w →
  isolated (length (promises w)) (next_timer w) init
    (request_function mock timout input init w).1.
Proof.
  intros [Htm Hls]. rewrite request_function_unfold.
  assert (∀ cb, allocated w cb → foreign (length (promises w)) (next_timer w) cb)
    as Hforeign.
  { intros cb [Hp Ht]. split; [lia|]. intros Heq. specialize (Ht _ Heq). lia. }
  split_and!; simpl.
  - rewrite length_app. simpl. lia.
  - lia.
  - intros t d cb Hlook Hne. rewrite lookup_insert_ne in Hlook by done.
    apply Hforeign. by eapply Htm.
  - intros s sg cb Hlook Hin.
    destruct (init ≫= signal) as [sid|] eqn:Hinit; [|by left; eapply Hforeign, Hls].
    rewrite list_lookup_alter in Hlook. case_decide as Hsid.
    2:{ left. by eapply Hforeign, Hls. }
    subst s. destruct (signals w !! sid) as [sg0|] eqn:Hsg0; simplify_eq/=.
    apply elem_of_app in Hin as [Hin|Hin]; [by left; eapply Hforeign, Hls|].
    apply list_elem_of_singleton in Hin as ->. by right.
Qed.

(** A live signal now carries the listener. *)
Lemma request_listening sid sg :
  init ≫= signal = Some sid → signals w !! sid = Some sg → aborted sg = false →
  listening (length (promises w)) (next_timer w) sid
    (request_function mock timout input init w).1.
Proof.
  intros Hinit Hsg Hab. rewrite request_function_unfold.
  exists (add_listener (OnAbort (next_timer w) sid (length (promises w))) sg).
  simpl. rewrite Hinit, list_lookup_alter_eq, Hsg. split_and!; try done.
  simpl. apply elem_of_app. right. by apply list_elem_of_singleton.
Qed.

(** A signal that had aborted before the call is still just that. *)
Lemma request_has_aborted sid r :
  has_aborted sid r w →
  has_aborted sid r (request_function mock timout input init w).1.
Proof. apply (step_has_aborted (FetchCalled mock timout input init)). Qed.
End Call.

(** ** Whole runs *)

Section Run.
Context (mock : option Mock.t) (timout : number) (input : RequestInput)
        (init : option RequestInit) (p tid : nat).

(** While the signal does not abort, the invocation waits until its timer
    fires and is resolved from then on. *)
Lemma run_no_abort es w :
  isolated p tid init w → armed mock timout input p tid w →
  no_abort init es = true →
  armed mock timout input p tid (run es w) ∨
  promises (run es w) !! p = Some (Fulfilled (RResponse (response_of mock input))).
Proof.
  revert w. induction es as [|e es IH]; intros w Hiso Harm Hq; [by left|].
  simpl in Hq. apply andb_true_iff in Hq as [He Hq]. apply negb_true_iff in He.
  rewrite run_cons. destruct (fires_timer tid e) eqn:Hfire.
  - destruct e; simpl in Hfire; try done.
    apply bool_decide_eq_true in Hfire as ->.
    right. apply run_settled; [|done]. by eapply armed_timer_fires.
  - apply IH; [by apply step_isolated| |done]. by eapply step_armed.
Qed.

Lemma run_waiting es w :
  isolated p tid init w → armed mock timout input p tid w →
  no_abort init es = true → no_timer tid es = true →
  armed mock timout input p tid (run es w).
Proof.
  revert w. induction es as [|e es IH]; intros w Hiso Harm Hq Ht; [done|].
  simpl in Hq, Ht.
  apply andb_true_iff in Hq as [He Hq]. apply negb_true_iff in He.
  apply andb_true_iff in Ht as [He' Ht]. apply negb_true_iff in He'.
  rewrite run_cons. apply IH; [by apply step_isolated| |done|done].
  by eapply step_armed.
Qed.

Lemma run_listening es w sid :
  init ≫= signal = Some sid → listening p tid sid w →
  no_abort init es = true →
  listening p tid sid (run es w).
Proof.
  intros Hinit. revert w.
  induction es as [|e es IH]; intros w Hl Hq; [done|].
  simpl in Hq. apply andb_true_iff in Hq as [He Hq]. apply negb_true_iff in He.
  rewrite run_cons. apply IH; [|done]. apply step_listening; [done|].
  intros r ->. simpl in He. rewrite Hinit in He.
  by rewrite bool_decide_eq_true_2 in He.
Qed.

(** The timer fires first. *)
Lemma timer_first es es' w :
  isolated p tid init w → armed mock timout input p tid w →
  no_abort init es = true →
  promises (run (es ++ TimerFires tid :: es') w) !! p
  = Some (Fulfilled (RResponse (response_of mock input))).
Proof.
  intros Hiso Harm Hq. rewrite run_app, run_cons.
  apply run_settled; [|done].
  destruct (run_no_abort es w Hiso Harm Hq) as [Ha|Hf].
  - by eapply armed_timer_fires.
  - by apply step_settled.
Qed.

(** The signal aborts first. *)
Lemma abort_first es es' w sid r :
  isolated p tid init w → armed mock timout input p tid w →
  init ≫= signal = Some sid → listening p tid sid w →
  no_abort init es = true → no_timer tid es = true →
  rejected_with p tid r (run (es ++ SignalAborts sid r :: es') w).
Proof.
  intros Hiso Harm Hinit Hl Hq Ht. rewrite run_app, run_cons.
  pose proof (run_isolated _ _ _ es w Hiso) as Hiso'.
  pose proof (run_waiting es w Hiso Harm Hq Ht) as Harm'.
  pose proof (run_listening es w sid Hinit Hl Hq) as Hl'.
  destruct (abort_cases mock timout input init p tid sid r (run es w))
    as [_ Hrej]; try done.
  destruct (Hrej Hl') as [Hp Hnone]. split.
  - by apply run_settled.
  - apply run_timer_gone; [|done].
    by destruct (step_isolated _ _ _ (SignalAborts sid r) _ Hiso') as (_&?&_).
Qed.

(** The signal had aborted before the call: its abort event is over, so
    the listener never runs and only the timer can settle the promise. *)
Lemma step_armed_aborted e w sid r :
  isolated p tid init w → armed mock timout input p tid w →
  init ≫= signal = Some sid → has_aborted sid r w →
  fires_timer tid e = false →
  armed mock timout input p tid (step e w).
Proof.
  intros Hiso Harm Hinit (sg & Hsg & Hab & _) Hfire.
  destruct (aborts_signal_of init e) eqn:He; [|by eapply step_armed].
  destruct e as [|sid' r'| | | | |]; simpl in He; try done.
  rewrite Hinit in He. apply bool_decide_eq_true in He as ->.
  cbn [step]. unfold abort_signal. by rewrite Hsg, Hab.
Qed.

Lemma run_aborted_before es w sid r :
  isolated p tid init w → armed mock timout input p tid w →
  init ≫= signal = Some sid → has_aborted sid r w →
  (no_timer tid es = true → armed mock timout input p tid (run es w)) ∧
  (armed mock timout input p tid (run es w) ∨
   promises (run es w) !! p = Some (Fulfilled (RResponse (response_of mock input)))).
Proof.
  intros Hiso Harm Hinit. revert w Hiso Harm.
  induction es as [|e es IH]; intros w Hiso Harm Hab; [by split; [|left]|].
  rewrite run_cons. destruct (fires_timer tid e) eqn:Hfire.
  - split; [simpl; by rewrite Hfire|].
    destruct e; simpl in Hfire; try done.
    apply bool_decide_eq_true in Hfire as ->.
    right. apply run_settled; [|done]. by eapply armed_timer_fires.
  - destruct (IH (step e w)) as [IH1 IH2].
    + by apply step_isolated.
    + by eapply step_armed_aborted.
    + by apply step_has_aborted.
    + split; [|done]. simpl. rewrite Hfire. simpl. done.
Qed.

(** A rejection can only come from an abort of the supplied signal, and
    carries the reason of that abort. *)
Lemma rejected_only_by_abort es w v :
  isolated p tid init w → armed mock timout input p tid w →
  promises (run es w) !! p = Some (Rejected v) →
  ∃ sid, init ≫= signal = Some sid ∧ SignalAborts sid v ∈ es.
Proof.
  revert w. induction es as [|e es IH]; intros w Hiso Harm Hrej.
  { destruct Harm as [Hpend _]. simpl in Hrej. congruence. }
  rewrite run_cons in Hrej.
  destruct (step_cases mock timout input init p tid e w Hiso Harm)
    as [Ha|[[-> Hf]|(sid & r & -> & Hinit & [Hr _])]].
  - destruct (IH (step e w)) as (sid & ? & ?); [by apply step_isolated|done|done|].
    exists sid. split; [done|]. by right.
  - rewrite (run_settled es _ _ _ Hf) in Hrej by done. done.
  - rewrite (run_settled es _ _ _ Hr) in Hrej by done. simplify_eq.
    exists sid. split; [done|]. by left.
Qed.
End Run.

(** The signal holds the reason it aborted with. *)
Lemma abort_sets_reason w sid sg r :
  signals w !! sid = Some sg → aborted sg = false →
  has_aborted sid r (step (SignalAborts sid r) w).
Proof.
  intros Hsg Hab. cbn [step]. unfold abort_signal. rewrite Hsg, Hab.
  apply (dispatch_ind (has_aborted sid r)).
  - intros cb w' _ (sg' & ? & ? & ?).
    destruct (run_callback_frame cb w') as (_&_&Hs'). exists sg'. by rewrite Hs'.
  - eexists. simpl.
    split; [apply list_lookup_insert_eq; by eapply lookup_lt_Some|done].
Qed.

Lemma has_aborted_reason w sid r : has_aborted sid r w → signal_reason sid w = r.
Proof. intros (sg & Hsg & _ & Hr). unfold signal_reason. by rewrite Hsg. Qed.

(** ** The call, from the factory on *)

Lemma fetch_call_unfold mock timout input init w :
  fetch_call mock timout input init w
  = request_function mock (default (lit 1000) timout) input init
      (console_warn
         "Unready fetch used! Please change to real fetch after API is ready!" w).
Proof. done. Qed.

Lemma console_warn_well_formed msg w : well_formed w → well_formed (console_warn msg w).
Proof. by intros [??]. Qed.

Lemma json_resolves r : resolves_to (json r) (RValue (Response.captured r)).
Proof.
  intros w. unfold json. rewrite Promise_resolve_unfold. simpl.
  by rewrite lookup_app_r, Nat.sub_diag.
Qed.

Lemma text_resolves JSON_stringify r :
  resolves_to (text JSON_stringify r)
    (RValue (JSON_stringify (Response.captured r))).
Proof.
  intros w. unfold text. rewrite Promise_resolve_unfold. simpl.
  by rewrite lookup_app_r, Nat.sub_diag.
Qed.

Section Outcome.
Context (mock : option Mock.t) (timout : option number) (input : RequestInput)
        (init : option RequestInit) (w : World).
Hypothesis Hwf : well_formed w.

Lemma fetch_call_promise :
  (fetch_call mock timout input init w).2 = length (promises w).
Proof. by rewrite fetch_call_unfold, request_function_unfold. Qed.

Lemma fetch_call_isolated :
  isolated (length (promises w)) (next_timer w) init
    (fetch_call mock timout input init w).1.
Proof.
  rewrite fetch_call_unfold.
  apply (request_isolated mock (default (lit 1000) timout) input init
           (console_warn _ w)).
  by apply console_warn_well_formed.
Qed.

Lemma fetch_call_armed :
  armed mock (default (lit 1000) timout) input (length (promises w)) (next_timer w)
    (fetch_call mock timout input init w).1.
Proof.
  rewrite fetch_call_unfold.
  apply (request_armed mock (default (lit 1000) timout) input init (console_warn _ w)).
Qed.

(** No abort: the promise is resolved with the response, for good. *)
Lemma outcome_resolved es es' :
  no_abort init es = true →
  outcome mock timout input init w (es ++ TimerFires (next_timer w) :: es')
  = Some (Fulfilled (RResponse (response_of mock input))).
Proof.
  intros Hq. unfold outcome. rewrite fetch_call_promise.
  eapply timer_first; [apply fetch_call_isolated|apply fetch_call_armed|done].
Qed.

(** Abort before the timer: rejected with the reason, timer disarmed, for
    good. *)
Lemma outcome_aborted es es' sid sg r :
  init ≫= signal = Some sid → signals w !! sid = Some sg → aborted sg = false →
  no_abort init es = true → no_timer (next_timer w) es = true →
  outcome mock timout input init w (es ++ SignalAborts sid r :: es')
  = Some (Rejected r) ∧
  timers (run (es ++ SignalAborts sid r :: es')
            (fetch_call mock timout input init w).1) !! next_timer w = None ∧
  signal_reason sid (run (es ++ SignalAborts sid r :: es')
                       (fetch_call mock timout input init w).1) = r.
Proof.
  intros Hinit Hsg Hab Hq Ht. unfold outcome. rewrite fetch_call_promise.
  assert (listening (length (promises w)) (next_timer w) sid
            (fetch_call mock timout input init w).1) as Hl.
  { rewrite fetch_call_unfold.
    by apply (request_listening mock (default (lit 1000) timout) input init
                (console_warn _ w) sid sg). }
  destruct (abort_first mock (default (lit 1000) timout) input init
              (length (promises w)) (next_timer w) es es'
              (fetch_call mock timout input init w).1 sid r) as [Hrej Hnone];
    [apply fetch_call_isolated|apply fetch_call_armed|done..|].
  split_and!; [done|done|].
  apply has_aborted_reason. rewrite run_app, run_cons. apply run_has_aborted.
  destruct (run_listening init (length (promises w)) (next_timer w) es
              (fetch_call mock timout input init w).1 sid Hinit Hl Hq)
    as (sg' & Hsg' & Hab' & _).
  by eapply abort_sets_reason.
Qed.

(** The signal had already aborted when the call was made. *)
Lemma outcome_aborted_before es sid r :
  init ≫= signal = Some sid → has_aborted sid r w →
  (no_timer (next_timer w) es = true →
   outcome mock timout input init w es = Some Pending) ∧
  (outcome mock timout input init w es = Some Pending ∨
   outcome mock timout input init w es
   = Some (Fulfilled (RResponse (response_of mock input)))).
Proof.
  intros Hinit Hab. unfold outcome. rewrite fetch_call_promise.
  destruct (run_aborted_before mock (default (lit 1000) timout) input init
              (length (promises w)) (next_timer w) es
              (fetch_call mock timout input init w).1 sid r) as [H1 H2].
  - apply fetch_call_isolated.
  - apply fetch_call_armed.
  - done.
  - rewrite fetch_call_unfold. apply request_has_aborted.
    destruct Hab as (sg & ? & ? & ?). by exists sg.
  - split.
    + intros Ht. by destruct (H1 Ht).
    + destruct H2 as [[? _]|?]; [by left|by right].
Qed.

(** Only an abort of the supplied signal rejects. *)
Lemma outcome_rejected es v :
  outcome mock timout input init w es = Some (Rejected v) →
  ∃ sid, init ≫= signal = Some sid ∧ SignalAborts sid v ∈ es.
Proof.
  unfold outcome. rewrite fetch_call_promise.
  eapply rejected_only_by_abort; [apply fetch_call_isolated|apply fetch_call_armed].
Qed.
End Outcome.

Lemma world_after_well_formed history : well_formed (world_after history).
Proof. apply run_well_formed, well_formed_initial. Qed.

(** A timer that fired is spent. *)
Lemma fire_timer_spent id w : timers (fire_timer id w) !! id = None.
Proof.
  unfold fire_timer. destruct (timers w !! id) as [[d cb]|] eqn:Hid; [|done].
  rewrite run_callback_timers. case_decide; [done|]. apply lookup_delete_eq.
Qed.

Lemma outcome_timer_spent mock timout input init w es es' :
  well_formed w →
  timers (run (es ++ TimerFires (next_timer w) :: es')
            (fetch_call mock timout input init w).1) !! next_timer w = None.
Proof.
  intros Hwf. rewrite run_app, run_cons. apply run_timer_gone.
  - pose proof (fetch_call_isolated mock timout input init w Hwf) as Hiso.
    apply (run_isolated _ _ _ es) in Hiso.
    by apply (step_isolated _ _ _ (TimerFires (next_timer w))) in Hiso as (_&?&_).
  - apply fire_timer_spent.
Qed.

Lemma outcome_settled mock timout input init w es es' st :
  outcome mock timout input init w es = Some st → settled st = true →
  outcome mock timout input init w (es ++ es') = Some st.
Proof.
  unfold outcome. intros Hst Hs. rewrite run_app. by apply run_settled.
Qed.

Lemma outcome_aborted_before_timer mock timout input init w es es' sid r :
  well_formed w → init ≫= signal = Some sid → has_aborted sid r w →
  outcome mock timout input init w (es ++ TimerFires (next_timer w) :: es')
  = Some (Fulfilled (RResponse (response_of mock input))).
Proof.
  intros Hwf Hinit Hab.
  change (TimerFires (next_timer w) :: es') with ([TimerFires (next_timer w)] ++ es').
  rewrite app_assoc. apply outcome_settled; [|done].
  destruct (outcome_aborted_before mock timout input init w Hwf es sid r Hinit Hab)
    as [_ [Hpend|Hful]].
  - unfold outcome in *. rewrite fetch_call_promise in *.
    rewrite run_app. simpl.
    destruct (run_aborted_before mock (default (lit 1000) timout) input init
                (length (promises w)) (next_timer w) es
                (fetch_call mock timout input init w).1 sid r) as [_ [Ha|Hf]].
    + by apply fetch_call_isolated.
    + apply fetch_call_armed.
    + done.
    + rewrite fetch_call_unfold. apply request_has_aborted.
      destruct Hab as (sg & ? & ? & ?). by exists sg.
    + by eapply armed_timer_fires.
    + congruence.
  - by apply outcome_settled.
Qed.

(** * The specification, claim by claim

    In every statement the call [unreadyFetch(mock, timout)(input, init)]
    is made in [world_after history], whatever [history] was; its timer is
    then [next_timer (world_after history)].  ``No abort'' is a stretch of
    events [es] with [no_abort init es], and what follows the settlement,
    [es'], is arbitrary. *)

(** C1 (not met by the code).  An [init.signal] that had already aborted
    when the call was made is not looked at: the abort event is over, so
    the listener the call adds never runs.  Until the timer fires the
    promise is still pending, and when it fires the promise is resolved
    with the response, never rejected with the signal's reason. *)
Theorem already_aborted_signal_resolves
    (history es es' : list Event) (mock : option Mock.t) (timout : option number)
    (input : RequestInput) (init : option RequestInit)
    (sid : nat) (sg : AbortSignal) :
  init ≫= signal = Some sid →
  signals (world_after history) !! sid = Some sg →
  aborted sg = true →
  (no_timer (next_timer (world_after history)) es = true →
   outcome mock timout input init (world_after history) es = Some Pending) ∧
  outcome mock timout input init (world_after history)
    (es ++ TimerFires (next_timer (world_after history)) :: es')
  = Some (Fulfilled (RResponse (response_of mock input))).
Proof.
  intros Hinit Hsg Hab.
  assert (has_aborted sid (reason sg) (world_after history)) as Hdead
    by (by exists sg).
  pose proof (world_after_well_formed history) as Hwf. split.
  - by destruct (outcome_aborted_before mock timout input init _ Hwf es sid
                   (reason sg) Hinit Hdead).
  - by eapply outcome_aborted_before_timer.
Qed.

Lemma already_aborted_signal_resolves_witness :
  outcome None (Some (lit 1000)) (InputString "/api") (Some {| signal := Some 0 |})
    (world_after [AbortedSignalCreated (Str "cancelled")]) [] = Some Pending ∧
  outcome None (Some (lit 1000)) (InputString "/api") (Some {| signal := Some 0 |})
    (world_after [AbortedSignalCreated (Str "cancelled")]) [TimerFires 0]
  = Some (Fulfilled (RResponse
      {| Response.url := "/api"; Response.ok := true; Response.status := lit 200;
         Response.captured := defaultSuccessResponse |})).
Proof.
  destruct (already_aborted_signal_resolves
              [AbortedSignalCreated (Str "cancelled")] [] [] None (Some (lit 1000))
              (InputString "/api") (Some {| signal := Some 0 |}) 0
              {| aborted := true; reason := Str "cancelled"; listeners := [] |})
    as [H1 H2]; [reflexivity..|].
  split; [apply H1; reflexivity|exact H2].
Defined.

(** C2 (amended).  If [success] is set, whatever its value, and [status]
    is missing or below 400, and no abort occurs, then the response has
    [ok === true] and [status] equal to [spec.status] if present and 200
    otherwise, and [json()] resolves to [spec.success], unless that is
    [null] or [undefined]: then it resolves to the default success
    payload.  Left out, neither promised nor denied, are the specs with a
    falsy [success] and a truthy [error]: there the code answers with the
    error although [success] is set, against its own comment. *)
Theorem success_payload_resolves_ok
    (history es es' : list Event) (m : Mock.t) (timout : option number)
    (input : RequestInput) (init : option RequestInit) (v : JsVal) :
  no_abort init es = true →
  Mock.success m = Some v →
  negb (ToBoolean v) && ToBoolean (mock_error (Some m)) = false →
  (∀ s, Mock.status m = Some s → number_lt s (lit 400) = true) →
  ∃ r, outcome (Some m) timout input init (world_after history)
         (es ++ TimerFires (next_timer (world_after history)) :: es')
       = Some (Fulfilled (RResponse r)) ∧
       Response.ok r = true ∧
       Response.status r = default (lit 200) (Mock.status m) ∧
       (nullish v = false → resolves_to (json r) (RValue v)) ∧
       (nullish v = true → resolves_to (json r) (RValue defaultSuccessResponse)).
Proof.
  intros Hq Hv Hslip Hstatus.
  exists (response_of (Some m) input).
  assert (mock_success (Some m) = v) as Hsucc
    by (unfold mock_success; simpl; by rewrite Hv).
  assert (Response.ok (response_of (Some m) input) = true) as Hok.
  { apply response_ok_true. split.
    - intros s Hs. apply number_lt_not_ge. by apply Hstatus.
    - rewrite Hsucc.
      destruct (ToBoolean v); [by left|]. right.
      by destruct (ToBoolean (mock_error (Some m))). }
  destruct (response_success_branch _ input Hok) as [Hst Hcap].
  pose proof (json_resolves (response_of (Some m) input)) as Hj.
  rewrite Hcap, Hsucc in Hj.
  split_and!.
  - by apply outcome_resolved; [apply world_after_well_formed|].
  - done.
  - done.
  - intros Hnull. by rewrite coalesce_keep in Hj.
  - intros Hnull. by rewrite coalesce_default in Hj.
Qed.

Lemma success_payload_resolves_ok_witness :
  (∃ r, outcome
          (Some (Mock.make (Some (Obj [("message", Str "Success!"); ("data", Arr [])]))
                   (Some (Str "bad request")) (Some (lit 201))))
          (Some (lit 500)) (InputString "https://api.example.com/data") None
          (world_after []) [TimerFires 0]
        = Some (Fulfilled (RResponse r)) ∧
        Response.ok r = true ∧
        Response.status r = lit 201 ∧
        resolves_to (json r)
          (RValue (Obj [("message", Str "Success!"); ("data", Arr [])]))) ∧
  (∃ r, outcome (Some (Mock.make (Some Null) None (Some (lit 201))))
          None (InputString "/api") None (world_after []) [TimerFires 0]
        = Some (Fulfilled (RResponse r)) ∧
        Response.ok r = true ∧
        Response.status r = lit 201 ∧
        resolves_to (json r) (RValue defaultSuccessResponse)).
Proof.
  split.
  - destruct (success_payload_resolves_ok [] [] []
                (Mock.make (Some (Obj [("message", Str "Success!"); ("data", Arr [])]))
                   (Some (Str "bad request")) (Some (lit 201)))
                (Some (lit 500)) (InputString "https://api.example.com/data") None
                (Obj [("message", Str "Success!"); ("data", Arr [])]))
      as (r & Hr & Hok & Hst & Hkeep & _).
    + reflexivity.
    + reflexivity.
    + reflexivity.
    + intros s [= <-]. reflexivity.
    + exists r. split_and!; [exact Hr|exact Hok|exact Hst|]. apply Hkeep. reflexivity.
  - destruct (success_payload_resolves_ok [] [] []
                (Mock.make (Some Null) None (Some (lit 201)))
                None (InputString "/api") None Null)
      as (r & Hr & Hok & Hst & _ & Hdef).
    + reflexivity.
    + reflexivity.
    + reflexivity.
    + intros s [= <-]. reflexivity.
    + exists r. split_and!; [exact Hr|exact Hok|exact Hst|]. apply Hdef. reflexivity.
Defined.

(** C2 as stated fails: with [success: 0] and an [error] payload the
    response has [ok === false]; with [success: null] the response is a
    success but [json()] resolves to the default payload, not to [null]. *)
Lemma success_set_counterexample :
  (∃ r, Mock.success (Mock.make (Some (Num (lit 0))) (Some (Str "bad request")) None)
          = Some (Num (lit 0)) ∧
        Mock.status (Mock.make (Some (Num (lit 0))) (Some (Str "bad request")) None)
          = None ∧
        outcome (Some (Mock.make (Some (Num (lit 0))) (Some (Str "bad request")) None))
          None (InputString "/api") None initial [TimerFires 0]
        = Some (Fulfilled (RResponse r)) ∧
        Response.ok r = false) ∧
  (∃ r, Mock.success (Mock.make (Some Null) None None) = Some Null ∧
        Mock.status (Mock.make (Some Null) None None) = None ∧
        outcome (Some (Mock.make (Some Null) None None))
          None (InputString "/api") None initial [TimerFires 0]
        = Some (Fulfilled (RResponse r)) ∧
        ¬ resolves_to (json r) (RValue Null)).
Proof.
  split.
  - eexists. split_and!; reflexivity.
  - eexists. split_and!; try reflexivity.
    intros H. specialize (H initial). vm_compute in H. discriminate H.
Qed.

Lemma departs_from_comment_false mock :
  departs_from_comment mock = false →
  ((∃ s, mock_status mock = Some s ∧ number_ge s (lit 400) = true) ∨
   (ToBoolean (mock_success mock) = false ∧ ToBoolean (mock_error mock) = true)) ↔
  ((∃ s, mock_status mock = Some s ∧ number_ge s (lit 400) = true) ∨
   (mock_success mock = Undefined ∧ mock_error mock ≠ Undefined)).
Proof.
  unfold departs_from_comment. intros Hd.
  destruct (mock_status mock) as [s|] eqn:Hs.
  - destruct (number_ge s (lit 400)) eqn:Hge.
    + split; intros _; left; eauto.
    + simpl in Hd.
      destruct (mock_success mock) as [| |[]|n|[]| |],
               (mock_error mock) as [| |[]|n'|[]| |];
        simpl in *; try destruct (number_truthy n); try destruct (number_truthy n');
        simpl in *; try discriminate Hd;
        split; intros [(s' & [= <-] & ?)|[??]]; try congruence; by right.
  - simpl in Hd.
    destruct (mock_success mock) as [| |[]|n|[]| |],
             (mock_error mock) as [| |[]|n'|[]| |];
      simpl in *; try destruct (number_truthy n); try destruct (number_truthy n');
      simpl in *; try discriminate Hd;
      split; intros [(s' & ? & ?)|[??]]; try congruence; by right.
Qed.

(** C3 (amended).  With no abort, the error branch ([ok === false]) is
    taken if and only if [status] is defined and [>= 400], or [success] is
    undefined and [error] is defined.  In that branch [json()] resolves to
    [spec.error], unless that is [null] or [undefined]: then it resolves
    to the default error payload; and the response status is [spec.status]
    if present and 400 otherwise.  Left out of the equivalence, neither
    promised nor denied, are the specs of [departs_from_comment], on which
    the code tests for falsy and truthy values where its own comment says
    ``not set'' and ``set''. *)
Theorem error_branch_condition
    (history es es' : list Event) (mock : option Mock.t) (timout : option number)
    (input : RequestInput) (init : option RequestInit) :
  no_abort init es = true →
  ∃ r, outcome mock timout input init (world_after history)
         (es ++ TimerFires (next_timer (world_after history)) :: es')
       = Some (Fulfilled (RResponse r)) ∧
       (departs_from_comment mock = false →
        (Response.ok r = false ↔
           (∃ s, mock_status mock = Some s ∧ number_ge s (lit 400) = true) ∨
           (mock_success mock = Undefined ∧ mock_error mock ≠ Undefined))) ∧
       (Response.ok r = false →
          resolves_to (json r)
            (RValue (coalesce (mock_error mock) defaultErrorResponse)) ∧
          Response.status r = default (lit 400) (mock_status mock)).
Proof.
  intros Hq. exists (response_of mock input). split_and!.
  - by apply outcome_resolved; [apply world_after_well_formed|].
  - intros Hd. rewrite response_ok_false. by apply departs_from_comment_false.
  - intros Hok. destruct (response_error_branch mock input Hok) as [Hst Hcap].
    split; [|done]. rewrite <-Hcap. apply json_resolves.
Qed.

Lemma error_branch_condition_witness :
  (∃ r, outcome (Some (Mock.make None (Some (Obj [("message", Str "Invalid")])) None))
          None (InputString "/api") None (world_after []) [TimerFires 0]
        = Some (Fulfilled (RResponse r)) ∧
        Response.ok r = false ∧
        resolves_to (json r) (RValue (Obj [("message", Str "Invalid")])) ∧
        Response.status r = lit 400) ∧
  (∃ r, outcome (Some (Mock.make (Some (Str "fine")) (Some Null) (Some (lit 500))))
          None (InputString "/api") None (world_after []) [TimerFires 0]
        = Some (Fulfilled (RResponse r)) ∧
        Response.ok r = false ∧
        resolves_to (json r) (RValue defaultErrorResponse) ∧
        Response.status r = lit 500).
Proof.
  split.
  - destruct (error_branch_condition [] [] []
                (Some (Mock.make None (Some (Obj [("message", Str "Invalid")])) None))
                None (InputString "/api") None eq_refl) as (r & Hr & Hiff & Hbranch).
    assert (Response.ok r = false) as Hok.
    { apply (Hiff eq_refl). right. split; [reflexivity|discriminate]. }
    destruct (Hbranch Hok) as [Hj Hst].
    exists r. split_and!; [exact Hr|exact Hok|exact Hj|exact Hst].
  - destruct (error_branch_condition [] [] []
                (Some (Mock.make (Some (Str "fine")) (Some Null) (Some (lit 500))))
                None (InputString "/api") None eq_refl) as (r & Hr & Hiff & Hbranch).
    assert (Response.ok r = false) as Hok.
    { apply (Hiff eq_refl). left. eexists. split; reflexivity. }
    destruct (Hbranch Hok) as [Hj Hst].
    exists r. split_and!; [exact Hr|exact Hok|exact Hj|exact Hst].
Defined.

(** C3 as stated fails, three ways.  [success: 0] is defined and [status]
    is not, yet the error branch is taken.  With [success] missing,
    [error: ""] is defined, yet the success branch is taken.  And with
    [status: 500], [error: null] is present, yet [json()] resolves to the
    default error payload. *)
Lemma error_branch_counterexample :
  (∃ r, mock_success (Some (Mock.make (Some (Num (lit 0))) (Some (Str "bad request")) None))
          ≠ Undefined ∧
        mock_status (Some (Mock.make (Some (Num (lit 0))) (Some (Str "bad request")) None))
          = None ∧
        outcome (Some (Mock.make (Some (Num (lit 0))) (Some (Str "bad request")) None))
          None (InputString "/api") None initial [TimerFires 0]
        = Some (Fulfilled (RResponse r)) ∧
        Response.ok r = false) ∧
  (∃ r, mock_success (Some (Mock.make None (Some (Str "")) None)) = Undefined ∧
        mock_error (Some (Mock.make None (Some (Str "")) None)) ≠ Undefined ∧
        outcome (Some (Mock.make None (Some (Str "")) None))
          None (InputString "/api") None initial [TimerFires 0]
        = Some (Fulfilled (RResponse r)) ∧
        Response.ok r = true) ∧
  (∃ r, Mock.error (Mock.make None (Some Null) (Some (lit 500))) = Some Null ∧
        outcome (Some (Mock.make None (Some Null) (Some (lit 500))))
          None (InputString "/api") None initial [TimerFires 0]
        = Some (Fulfilled (RResponse r)) ∧
        Response.ok r = false ∧
        ¬ resolves_to (json r) (RValue Null)).
Proof.
  split_and!.
  - eexists. split_and!; try reflexivity. discriminate.
  - eexists. split_and!; try reflexivity. discriminate.
  - eexists. split_and!; try reflexivity.
    intros H. specialize (H initial). vm_compute in H. discriminate H.
Qed.

(** C4.  With [status] defined and [>= 400], and no abort, the response
    has [ok === false] and [status === spec.status], whether or not
    [success] is set; and when [error] is missing (as with [status: 400]
    and only a [success] payload) [json()] resolves to the default error
    payload. *)
Theorem status_ge_400_is_error
    (history es es' : list Event) (mock : option Mock.t) (timout : option number)
    (input : RequestInput) (init : option RequestInit) (s : number) :
  no_abort init es = true →
  mock_status mock = Some s →
  number_ge s (lit 400) = true →
  ∃ r, outcome mock timout input init (world_after history)
         (es ++ TimerFires (next_timer (world_after history)) :: es')
       = Some (Fulfilled (RResponse r)) ∧
       Response.ok r = false ∧
       Response.status r = s ∧
       (mock ≫= Mock.error = None →
        resolves_to (json r) (RValue defaultErrorResponse)).
Proof.
  intros Hq Hs Hge. exists (response_of mock input).
  assert (Response.ok (response_of mock input) = false) as Hok.
  { apply response_ok_false. left. eauto. }
  destruct (response_error_branch mock input Hok) as [Hst Hcap].
  split_and!.
  - by apply outcome_resolved; [apply world_after_well_formed|].
  - done.
  - by rewrite Hst, Hs.
  - intros Herr. pose proof (json_resolves (response_of mock input)) as Hj.
    rewrite Hcap in Hj. unfold mock_error in Hj. by rewrite Herr in Hj.
Qed.

Lemma status_ge_400_is_error_witness :
  ∃ r, outcome
         (Some (Mock.make (Some (Obj [("message", Str "Success!")])) None
                  (Some (lit 400))))
         None (InputString "/api") None (world_after []) [TimerFires 0]
       = Some (Fulfilled (RResponse r)) ∧
       Response.ok r = false ∧
       Response.status r = lit 400 ∧
       (Some (Mock.make (Some (Obj [("message", Str "Success!")])) None
                (Some (lit 400))) ≫= Mock.error = None →
        resolves_to (json r) (RValue defaultErrorResponse)).
Proof.
  apply (status_ge_400_is_error [] [] []
           (Some (Mock.make (Some (Obj [("message", Str "Success!")])) None
                    (Some (lit 400))))
           None (InputString "/api") None (lit 400)); reflexivity.
Defined.

(** C5.  When the supplied signal aborts before the timer has fired, the
    promise is rejected with the reason the signal holds, exactly as it
    is, and the timer is disarmed: whatever happens afterwards, the timer
    is gone and the promise stays rejected with that reason. *)
Theorem abort_before_timer_rejects
    (history es es' : list Event) (mock : option Mock.t) (timout : option number)
    (input : RequestInput) (init : option RequestInit)
    (sid : nat) (sg : AbortSignal) (r : JsVal) :
  init ≫= signal = Some sid →
  signals (world_after history) !! sid = Some sg →
  aborted sg = false →
  no_abort init es = true →
  no_timer (next_timer (world_after history)) es = true →
  outcome mock timout input init (world_after history)
    (es ++ SignalAborts sid r :: es')
  = Some (Rejected r) ∧
  timers (run (es ++ SignalAborts sid r :: es')
            (fetch_call mock timout input init (world_after history)).1)
    !! next_timer (world_after history) = None ∧
  signal_reason sid
    (run (es ++ SignalAborts sid r :: es')
       (fetch_call mock timout input init (world_after history)).1) = r.
Proof.
  intros Hinit Hsg Hab Hq Ht.
  by eapply outcome_aborted; [apply world_after_well_formed|..].
Qed.

Lemma abort_before_timer_rejects_witness :
  outcome None (Some (lit 1000)) (InputString "/api") (Some {| signal := Some 0 |})
    (world_after [SignalCreated])
    ([PromiseResolved Null] ++ SignalAborts 0 (Str "cancelled") :: [TimerFires 0])
  = Some (Rejected (Str "cancelled")) ∧
  timers (run ([PromiseResolved Null] ++ SignalAborts 0 (Str "cancelled") :: [TimerFires 0])
            (fetch_call None (Some (lit 1000)) (InputString "/api")
               (Some {| signal := Some 0 |}) (world_after [SignalCreated])).1)
    !! 0 = None ∧
  signal_reason 0
    (run ([PromiseResolved Null] ++ SignalAborts 0 (Str "cancelled") :: [TimerFires 0])
       (fetch_call None (Some (lit 1000)) (InputString "/api")
          (Some {| signal := Some 0 |}) (world_after [SignalCreated])).1)
  = Str "cancelled".
Proof.
  apply (abort_before_timer_rejects [SignalCreated] [PromiseResolved Null] [TimerFires 0]
           None (Some (lit 1000)) (InputString "/api") (Some {| signal := Some 0 |}) 0
           {| aborted := false; reason := Undefined; listeners := [] |}
           (Str "cancelled")); reflexivity.
Defined.

(** C6.  The promise is rejected only by an abort of the supplied signal,
    and then with the reason of that abort.  An answer that is an error
    for the application ([status >= 400], or an error payload without a
    success payload) is a resolution with [ok: false].  So without a
    signal, or as long as the signal does not abort, the promise is never
    rejected and is resolved when the timer fires. *)
Theorem rejects_only_on_abort
    (history es es' : list Event) (mock : option Mock.t) (timout : option number)
    (input : RequestInput) (init : option RequestInit) :
  (∀ v, outcome mock timout input init (world_after history) es = Some (Rejected v) →
        ∃ sid, init ≫= signal = Some sid ∧ SignalAborts sid v ∈ es) ∧
  (init ≫= signal = None →
   ∀ v, outcome mock timout input init (world_after history) es ≠ Some (Rejected v)) ∧
  (no_abort init es = true →
   ∃ r, outcome mock timout input init (world_after history)
          (es ++ TimerFires (next_timer (world_after history)) :: es')
        = Some (Fulfilled (RResponse r)) ∧
        ((∃ s, mock_status mock = Some s ∧ number_ge s (lit 400) = true) ∨
         (ToBoolean (mock_success mock) = false ∧ ToBoolean (mock_error mock) = true) →
         Response.ok r = false)).
Proof.
  pose proof (world_after_well_formed history) as Hwf. split_and!.
  - intros v. by apply outcome_rejected.
  - intros Hnone v Hrej.
    apply outcome_rejected in Hrej as (sid & Hsid & _); [congruence|done].
  - intros Hq. exists (response_of mock input). split.
    + by apply outcome_resolved.
    + apply response_ok_false.
Qed.

Lemma rejects_only_on_abort_witness :
  ∃ r, outcome (Some (Mock.make None (Some (Str "bad request")) (Some (lit 422))))
         None (InputString "/api") None (world_after [])
         ([] ++ TimerFires 0 :: [SignalAborts 0 (Str "nobody listens")])
       = Some (Fulfilled (RResponse r)) ∧
       Response.ok r = false.
Proof.
  destruct (rejects_only_on_abort [] [] [SignalAborts 0 (Str "nobody listens")]
              (Some (Mock.make None (Some (Str "bad request")) (Some (lit 422))))
              None (InputString "/api") None) as (_ & _ & Hresolves).
  destruct (Hresolves eq_refl) as (r & Hr & Hok).
  exists r. split; [exact Hr|]. apply Hok. left. eexists. split; reflexivity.
Defined.

(** C7.  Once the timer has fired and the promise is resolved, an abort
    of the signal changes nothing: the promise keeps its response and the
    timer stays spent.  More generally a settled promise keeps its state
    whatever happens next, so it settles at most once and in one way. *)
Theorem late_abort_is_noop
    (history es es1 es2 : list Event) (mock : option Mock.t) (timout : option number)
    (input : RequestInput) (init : option RequestInit) (sid : nat) (r : JsVal) :
  no_abort init es = true →
  outcome mock timout input init (world_after history)
    (es ++ [TimerFires (next_timer (world_after history))])
  = Some (Fulfilled (RResponse (response_of mock input))) ∧
  outcome mock timout input init (world_after history)
    (es ++ TimerFires (next_timer (world_after history)) :: es1
        ++ SignalAborts sid r :: es2)
  = Some (Fulfilled (RResponse (response_of mock input))) ∧
  timers (run (es ++ TimerFires (next_timer (world_after history)) :: es1
                  ++ SignalAborts sid r :: es2)
            (fetch_call mock timout input init (world_after history)).1)
    !! next_timer (world_after history) = None ∧
  (∀ es0 es0' st,
     outcome mock timout input init (world_after history) es0 = Some st →
     settled st = true →
     outcome mock timout input init (world_after history) (es0 ++ es0') = Some st).
Proof.
  intros Hq. pose proof (world_after_well_formed history) as Hwf. split_and!.
  - by apply outcome_resolved.
  - by apply outcome_resolved.
  - by apply outcome_timer_spent.
  - intros es0 es0' st. apply outcome_settled.
Qed.

Lemma late_abort_is_noop_witness :
  outcome (Some (Mock.make None (Some (Str "bad request")) None)) None
    (InputString "/api") (Some {| signal := Some 0 |}) (world_after [SignalCreated])
    ([] ++ [TimerFires 0])
  = Some (Fulfilled (RResponse
      (response_of (Some (Mock.make None (Some (Str "bad request")) None))
         (InputString "/api")))) ∧
  outcome (Some (Mock.make None (Some (Str "bad request")) None)) None
    (InputString "/api") (Some {| signal := Some 0 |}) (world_after [SignalCreated])
    ([] ++ TimerFires 0 :: [] ++ SignalAborts 0 (Str "too late") :: [])
  = Some (Fulfilled (RResponse
      (response_of (Some (Mock.make None (Some (Str "bad request")) None))
         (InputString "/api")))) ∧
  timers (run ([] ++ TimerFires 0 :: [] ++ SignalAborts 0 (Str "too late") :: [])
            (fetch_call (Some (Mock.make None (Some (Str "bad request")) None)) None
               (InputString "/api") (Some {| signal := Some 0 |})
               (world_after [SignalCreated])).1) !! 0 = None ∧
  (∀ es0 es0' st,
     outcome (Some (Mock.make None (Some (Str "bad request")) None)) None
       (InputString "/api") (Some {| signal := Some 0 |}) (world_after [SignalCreated])
       es0 = Some st →
     settled st = true →
     outcome (Some (Mock.make None (Some (Str "bad request")) None)) None
       (InputString "/api") (Some {| signal := Some 0 |}) (world_after [SignalCreated])
       (es0 ++ es0') = Some st).
Proof.
  apply (late_abort_is_noop [SignalCreated] [] [] []
           (Some (Mock.make None (Some (Str "bad request")) None)) None
           (InputString "/api") (Some {| signal := Some 0 |}) 0 (Str "too late")).
  reflexivity.
Defined.

(** C8.  On a response, every call of [json()] resolves to one and the
    same payload and every call of [text()] to one and the same value,
    whatever happens between the calls; and what [text()] resolves to is
    [JSON.stringify] of what [json()] resolves to. *)
Theorem json_text_agree (JSON_stringify : JsVal → JsVal) (r : Response.t) :
  ∃ v : JsVal,
    (∀ w es,
       promises (json r (run es (json r w).1)).1 !! (json r w).2
       = Some (Fulfilled (RValue v)) ∧
       promises (json r (run es (json r w).1)).1 !! (json r (run es (json r w).1)).2
       = Some (Fulfilled (RValue v))) ∧
    (∀ w es,
       promises (text JSON_stringify r (run es (text JSON_stringify r w).1)).1
         !! (text JSON_stringify r w).2
       = Some (Fulfilled (RValue (JSON_stringify v))) ∧
       promises (text JSON_stringify r (run es (text JSON_stringify r w).1)).1
         !! (text JSON_stringify r (run es (text JSON_stringify r w).1)).2
       = Some (Fulfilled (RValue (JSON_stringify v)))).
Proof.
  exists (Response.captured r). split; intros w es.
  - split; [|apply json_resolves].
    apply (step_settled (PromiseResolved (Response.captured r))); [|done].
    apply run_settled; [|done]. apply json_resolves.
  - split; [|apply text_resolves].
    apply (step_settled (PromiseResolved (JSON_stringify (Response.captured r))));
      [|done].
    apply run_settled; [|done]. apply text_resolves.
Qed.

(** C9.  When no spec is given and no abort occurs, the success branch is
    taken with both defaults: [ok === true], [status === 200] and [json()]
    resolves to the default success payload.  And whatever the spec,
    [url] is the string form of the target. *)
Theorem omitted_spec_defaults
    (history es es' : list Event) (timout : option number)
    (input : RequestInput) (init : option RequestInit) :
  no_abort init es = true →
  (∃ r, outcome None timout input init (world_after history)
          (es ++ TimerFires (next_timer (world_after history)) :: es')
        = Some (Fulfilled (RResponse r)) ∧
        Response.ok r = true ∧
        Response.status r = lit 200 ∧
        resolves_to (json r) (RValue defaultSuccessResponse)) ∧
  (∀ mock, ∃ r,
        outcome mock timout input init (world_after history)
          (es ++ TimerFires (next_timer (world_after history)) :: es')
        = Some (Fulfilled (RResponse r)) ∧
        Response.url r = input_toString input).
Proof.
  intros Hq. pose proof (world_after_well_formed history) as Hwf. split.
  - exists (response_of None input). split_and!; try done.
    + by apply outcome_resolved.
    + apply (json_resolves (response_of None input)).
  - intros mock. exists (response_of mock input). split.
    + by apply outcome_resolved.
    + apply response_url.
Qed.

Lemma omitted_spec_defaults_witness :
  (∃ r, outcome None None (InputURL "https://api.example.com/data") None
          (world_after []) ([] ++ TimerFires 0 :: [])
        = Some (Fulfilled (RResponse r)) ∧
        Response.ok r = true ∧
        Response.status r = lit 200 ∧
        resolves_to (json r) (RValue defaultSuccessResponse)) ∧
  (∀ mock, ∃ r,
        outcome mock None (InputURL "https://api.example.com/data") None
          (world_after []) ([] ++ TimerFires 0 :: [])
        = Some (Fulfilled (RResponse r)) ∧
        Response.url r = "https://api.example.com/data").
Proof.
  apply (omitted_spec_defaults [] [] [] None
           (InputURL "https://api.example.com/data") None).
  reflexivity.
Defined.

(** C10 (amended).  Branch selection treats a falsy field as missing, and
    the payload fallback treats [null] and [undefined] as missing: when
    [success] is falsy and [error] is truthy (whatever [status] is, so in
    particular when it is missing or below 400) the error branch is
    chosen; and in the success branch a [success] that is [null] or
    [undefined] is replaced by the default success payload, which is what
    [json()] then resolves to. *)
Theorem falsy_success_is_absent
    (history es es' : list Event) (mock : option Mock.t) (timout : option number)
    (input : RequestInput) (init : option RequestInit) :
  no_abort init es = true →
  ∃ r, outcome mock timout input init (world_after history)
         (es ++ TimerFires (next_timer (world_after history)) :: es')
       = Some (Fulfilled (RResponse r)) ∧
       (ToBoolean (mock_success mock) = false →
        ToBoolean (mock_error mock) = true →
        Response.ok r = false) ∧
       (Response.ok r = true →
        nullish (mock_success mock) = true →
        resolves_to (json r) (RValue defaultSuccessResponse)).
Proof.
  intros Hq. exists (response_of mock input). split_and!.
  - by apply outcome_resolved; [apply world_after_well_formed|].
  - intros Hs He. apply response_ok_false. by right.
  - intros Hok Hnull. destruct (response_success_branch mock input Hok) as [_ Hcap].
    pose proof (json_resolves (response_of mock input)) as Hj.
    by rewrite Hcap, coalesce_default in Hj.
Qed.

Lemma falsy_success_is_absent_witness :
  (∃ r, outcome (Some (Mock.make (Some (Bool false)) (Some (Str "bad request")) None))
          None (InputString "/api") None (world_after []) [TimerFires 0]
        = Some (Fulfilled (RResponse r)) ∧
        Response.ok r = false) ∧
  (∃ r, outcome (Some (Mock.make (Some Null) None None))
          None (InputString "/api") None (world_after []) [TimerFires 0]
        = Some (Fulfilled (RResponse r)) ∧
        resolves_to (json r) (RValue defaultSuccessResponse)).
Proof.
  split.
  - destruct (falsy_success_is_absent [] [] []
                (Some (Mock.make (Some (Bool false)) (Some (Str "bad request")) None))
                None (InputString "/api") None eq_refl) as (r & Hr & Herr & _).
    exists r. split; [exact Hr|]. apply Herr; reflexivity.
  - destruct (falsy_success_is_absent [] [] []
                (Some (Mock.make (Some Null) None None))
                None (InputString "/api") None eq_refl) as (r & Hr & _ & Hdef).
    exists r. split; [exact Hr|]. apply Hdef; [|reflexivity].
    simpl in Hr. injection Hr as <-. reflexivity.
Defined.

(** C10 as stated fails, two ways.  With [success: null] and [error: 0],
    [error] is defined, [success] is falsy and [status] is missing, yet
    the success branch is taken.  And the payload fallback keeps a falsy
    [success] that is not [null]: with [success: 0] alone, [json()]
    resolves to [0], not to the default payload. *)
Lemma falsy_error_counterexample :
  (∃ r, ToBoolean (mock_success (Some (Mock.make (Some Null) (Some (Num (lit 0))) None)))
        = false ∧
        mock_error (Some (Mock.make (Some Null) (Some (Num (lit 0))) None)) ≠ Undefined ∧
        mock_status (Some (Mock.make (Some Null) (Some (Num (lit 0))) None)) = None ∧
        outcome (Some (Mock.make (Some Null) (Some (Num (lit 0))) None))
          None (InputString "/api") None initial [TimerFires 0]
        = Some (Fulfilled (RResponse r)) ∧
        Response.ok r = true) ∧
  (∃ r, ToBoolean (mock_success (Some (Mock.make (Some (Num (lit 0))) None None)))
        = false ∧
        outcome (Some (Mock.make (Some (Num (lit 0))) None None))
          None (InputString "/api") None initial [TimerFires 0]
        = Some (Fulfilled (RResponse r)) ∧
        Response.ok r = true ∧
        resolves_to (json r) (RValue (Num (lit 0))) ∧
        ¬ resolves_to (json r) (RValue defaultSuccessResponse)).
Proof.
  split.
  - eexists. split_and!; try reflexivity. discriminate.
  - eexists. split_and!; try reflexivity.
    + apply (json_resolves
               {| Response.url := "/api"; Response.ok := true;
                  Response.status := lit 200; Response.captured := Num (lit 0) |}).
    + intros H. specialize (H initial). vm_compute in H. discriminate H.
Qed.

(** * Further properties of the code *)

(** ** The console *)

Lemma run_callback_console cb w : console (run_callback cb w) = console w.
Proof.
  destruct cb as [mock input p|t sid p]; simpl.
  - rewrite on_timeout_resolve. unfold resolve. by repeat case_match.
  - unfold on_abort, reject. by repeat case_match.
Qed.

Lemma step_console e w :
  console (step e w)
  = console w ++ replicate (factory_calls [e]) warning.
Proof.
  destruct e as [id|sid r| |r|mock timout|mock timout input init|v]; cbn [step];
    unfold factory_calls; cbn [List.filter length replicate];
    rewrite ?app_nil_r; try done.
  - unfold fire_timer. destruct (timers w !! id) as [[d cb]|]; [|done].
    by rewrite run_callback_console.
  - unfold abort_signal. destruct (signals w !! sid) as [s|]; [|done].
    destruct (aborted s); [done|].
    apply (dispatch_ind (λ w', console w' = console w)); [|done].
    intros cb w' _ <-. apply run_callback_console.
  - by rewrite request_function_unfold.
  - by rewrite Promise_resolve_unfold.
Qed.

Lemma factory_calls_cons e es :
  factory_calls (e :: es) = factory_calls [e] + factory_calls es.
Proof. unfold factory_calls. simpl. by case_match. Qed.

Lemma run_console es w :
  console (run es w) = console w ++ replicate (factory_calls es) warning.
Proof.
  revert w. induction es as [|e es IH]; intros w; [by rewrite app_nil_r|].
  rewrite run_cons, IH, step_console, (factory_calls_cons e es), replicate_add.
  by rewrite app_assoc.
Qed.

(** X1.  [unreadyFetch] warns once each time it is called, and nothing
    else ever writes to the console: not calling the function it returned,
    not a timer firing, not an abort. *)
Theorem one_warning_per_factory_call
    (mock : option Mock.t) (timout : option number) (input : RequestInput)
    (init : option RequestInit) (w : World) (es : list Event) :
  console (unreadyFetch mock timout w).1 = console w ++ [warning] ∧
  console ((unreadyFetch mock timout w).2 input init (unreadyFetch mock timout w).1).1
  = console w ++ [warning] ∧
  console (run es (fetch_call mock timout input init w).1)
  = console w ++ warning :: replicate (factory_calls es) warning.
Proof.
  split_and!.
  - done.
  - change (console (request_function mock (default (lit 1000) timout) input init
                       (console_warn warning w)).1 = console w ++ [warning]).
    by rewrite request_function_unfold.
  - rewrite run_console, fetch_call_unfold, request_function_unfold. simpl.
    by rewrite <-app_assoc.
Qed.

(** ** When the call returns *)

(** X2.  When the call returns its promise is pending, whatever the mock,
    the delay (0 included) and the signal (an aborted one included), and
    one new timer is armed with the delay [timout], or 1000 when [timout]
    is left out. *)
Theorem call_returns_pending
    (mock : option Mock.t) (timout : option number) (input : RequestInput)
    (init : option RequestInit) (w : World) :
  outcome mock timout input init w [] = Some Pending ∧
  timers (fetch_call mock timout input init w).1 !! next_timer w
  = Some (default (lit 1000) timout, OnTimeout mock input (length (promises w))) ∧
  next_timer (fetch_call mock timout input init w).1 = S (next_timer w).
Proof.
  unfold outcome. rewrite fetch_call_unfold.
  destruct (request_armed mock (default (lit 1000) timout) input init
              (console_warn warning w)) as [Hp Ht].
  rewrite request_function_unfold in *. simpl in *. done.
Qed.

(** X3.  A call only adds to the world: the promises that were there keep
    their state, the timers that were armed stay armed, and every signal
    keeps its aborted flag, its reason and the listeners it had. *)
Theorem call_only_adds
    (history : list Event) (mock : option Mock.t) (timout : option number)
    (input : RequestInput) (init : option RequestInit) :
  (∀ q st, promises (world_after history) !! q = Some st →
     promises (fetch_call mock timout input init (world_after history)).1 !! q
     = Some st) ∧
  (∀ t x, timers (world_after history) !! t = Some x →
     timers (fetch_call mock timout input init (world_after history)).1 !! t
     = Some x) ∧
  (∀ s sg, signals (world_after history) !! s = Some sg →
     ∃ sg', signals (fetch_call mock timout input init (world_after history)).1 !! s
            = Some sg' ∧
            aborted sg' = aborted sg ∧ reason sg' = reason sg ∧
            listeners sg `prefix_of` listeners sg').
Proof.
  destruct (world_after_well_formed history) as [Htm _].
  rewrite fetch_call_unfold, request_function_unfold. simpl. split_and!.
  - intros q st Hq. by apply lookup_app_l_Some.
  - intros t x Ht. rewrite lookup_insert_ne; [done|].
    destruct x as [d cb]. destruct (Htm t d cb Ht). lia.
  - intros s sg Hs. destruct (init ≫= signal) as [sid|]; [|by exists sg].
    destruct (decide (sid = s)) as [->|Hne].
    + eexists. rewrite list_lookup_alter_eq, Hs. simpl.
      split_and!; try done. by apply prefix_app_r.
    + exists sg. by rewrite list_lookup_alter_ne.
Qed.

(** ** While the call is pending *)

(** X4.  Nothing but its own timer and its own signal touches a pending
    call: through other calls, other timers firing, other signals aborting
    and promises made elsewhere, the promise stays pending and the timer
    stays armed. *)
Theorem stays_pending
    (history es : list Event) (mock : option Mock.t) (timout : option number)
    (input : RequestInput) (init : option RequestInit) :
  no_abort init es = true →
  no_timer (next_timer (world_after history)) es = true →
  outcome mock timout input init (world_after history) es = Some Pending ∧
  timers (run es (fetch_call mock timout input init (world_after history)).1)
    !! next_timer (world_after history)
  = Some (default (lit 1000) timout,
          OnTimeout mock input (length (promises (world_after history)))).
Proof.
  intros Hq Ht. pose proof (world_after_well_formed history) as Hwf.
  unfold outcome. rewrite fetch_call_promise.
  by apply (run_waiting mock (default (lit 1000) timout) input init);
    [apply fetch_call_isolated|apply fetch_call_armed|..].
Qed.

Lemma stays_pending_witness :
  outcome None None (InputString "/a") (Some {| signal := Some 0 |})
    (world_after [SignalCreated; SignalCreated])
    [FetchCalled None (lit 0) (InputString "/b") (Some {| signal := Some 1 |});
     TimerFires 1; SignalAborts 1 (Str "other"); PromiseResolved Null]
  = Some Pending ∧
  timers (run [FetchCalled None (lit 0) (InputString "/b") (Some {| signal := Some 1 |});
               TimerFires 1; SignalAborts 1 (Str "other"); PromiseResolved Null]
            (fetch_call None None (InputString "/a") (Some {| signal := Some 0 |})
               (world_after [SignalCreated; SignalCreated])).1) !! 0
  = Some (lit 1000, OnTimeout None (InputString "/a") 0).
Proof.
  apply (stays_pending [SignalCreated; SignalCreated]
           [FetchCalled None (lit 0) (InputString "/b") (Some {| signal := Some 1 |});
            TimerFires 1; SignalAborts 1 (Str "other"); PromiseResolved Null]
           None None (InputString "/a") (Some {| signal := Some 0 |}));
    reflexivity.
Defined.

(** ** How the promise gets resolved *)

Lemma fulfilled_only_by_timer mock timout input init p tid es w v :
  isolated p tid init w → armed mock timout input p tid w →
  promises (run es w) !! p = Some (Fulfilled v) →
  v = RResponse (response_of mock input) ∧ TimerFires tid ∈ es.
Proof.
  revert w. induction es as [|e es IH]; intros w Hiso Harm Hful.
  { destruct Harm as [Hpend _]. simpl in Hful. congruence. }
  rewrite run_cons in Hful.
  destruct (step_cases mock timout input init p tid e w Hiso Harm)
    as [Ha|[[-> Hf]|(sid & r & -> & Hinit & [Hr _])]].
  - destruct (IH (step e w)) as [? ?]; [by apply step_isolated|done|done|].
    split; [done|]. by right.
  - rewrite (run_settled es _ _ _ Hf) in Hful by done. simplify_eq.
    split; [done|]. by left.
  - rewrite (run_settled es _ _ _ Hr) in Hful by done. done.
Qed.

Lemma outcome_fulfilled mock timout input init w es v :
  well_formed w →
  outcome mock timout input init w es = Some (Fulfilled v) →
  v = RResponse (response_of mock input) ∧ TimerFires (next_timer w) ∈ es.
Proof.
  intros Hwf. unfold outcome. rewrite fetch_call_promise.
  eapply fulfilled_only_by_timer; [by apply fetch_call_isolated|apply fetch_call_armed].
Qed.

(** X5.  The promise is resolved by the call's own timer and by nothing
    else: whenever it is fulfilled, that timer has fired, and the value is
    the response built from the mock and the target. *)
Theorem resolved_only_by_own_timer
    (history es : list Event) (mock : option Mock.t) (timout : option number)
    (input : RequestInput) (init : option RequestInit) (v : Resolved) :
  outcome mock timout input init (world_after history) es = Some (Fulfilled v) →
  v = RResponse (response_of mock input) ∧
  TimerFires (next_timer (world_after history)) ∈ es.
Proof. apply outcome_fulfilled, world_after_well_formed. Qed.

Lemma resolved_only_by_own_timer_witness :
  RResponse {| Response.url := "/api"; Response.ok := false;
               Response.status := lit 400; Response.captured := Str "bad request" |}
  = RResponse (response_of (Some (Mock.make None (Some (Str "bad request")) None))
                 (InputString "/api")) ∧
  TimerFires 0 ∈ [PromiseResolved Null; TimerFires 0].
Proof.
  apply (resolved_only_by_own_timer [] [PromiseResolved Null; TimerFires 0]
           (Some (Mock.make None (Some (Str "bad request")) None)) None
           (InputString "/api") None).
  reflexivity.
Defined.

(** ** What a response looks like *)

Lemma response_ok_status mock input :
  Response.ok (response_of mock input) = true →
  number_ge (Response.status (response_of mock input)) (lit 400) = false.
Proof.
  intros Hok. destruct (response_success_branch mock input Hok) as [-> _].
  apply response_ok_true in Hok as [Hst _].
  destruct (mock_status mock) as [s|]; simpl; [by apply Hst|done].
Qed.

Lemma response_captured_not_nullish mock input :
  nullish (Response.captured (response_of mock input)) = false.
Proof.
  unfold response_of, on_timeout. case_match; simpl; unfold coalesce.
  - by destruct (nullish (mock_error mock)) eqn:?.
  - by destruct (nullish (mock_success mock)) eqn:?.
Qed.

(** X6.  A response with [ok: true] never carries a status of 400 or
    more. *)
Theorem ok_status_below_400
    (history es : list Event) (mock : option Mock.t) (timout : option number)
    (input : RequestInput) (init : option RequestInit) (r : Response.t) :
  outcome mock timout input init (world_after history) es
  = Some (Fulfilled (RResponse r)) →
  Response.ok r = true →
  number_ge (Response.status r) (lit 400) = false.
Proof.
  intros Hful Hok.
  apply outcome_fulfilled in Hful as [[= ->] _]; [|apply world_after_well_formed].
  by apply response_ok_status.
Qed.

Lemma ok_status_below_400_witness :
  number_ge
    (Response.status
       {| Response.url := "/api"; Response.ok := true; Response.status := lit 399;
          Response.captured := Str "fine" |})
    (lit 400) = false.
Proof.
  apply (ok_status_below_400 [] [TimerFires 0]
           (Some (Mock.make (Some (Str "fine")) (Some (Str "bad request"))
                    (Some (lit 399))))
           None (InputString "/api") None); reflexivity.
Defined.

(** X7.  [json()] never resolves to [null] or [undefined]: a payload that
    is one of them has been replaced by a default payload. *)
Theorem payload_never_nullish
    (history es : list Event) (mock : option Mock.t) (timout : option number)
    (input : RequestInput) (init : option RequestInit) (r : Response.t) :
  outcome mock timout input init (world_after history) es
  = Some (Fulfilled (RResponse r)) →
  ∃ v, resolves_to (json r) (RValue v) ∧ nullish v = false.
Proof.
  intros Hful.
  apply outcome_fulfilled in Hful as [[= ->] _]; [|apply world_after_well_formed].
  eexists. split; [apply json_resolves|apply response_captured_not_nullish].
Qed.

Lemma payload_never_nullish_witness :
  ∃ v, resolves_to
         (json {| Response.url := "/api"; Response.ok := false;
                  Response.status := lit 500;
                  Response.captured := defaultErrorResponse |})
         (RValue v) ∧
       nullish v = false.
Proof.
  apply (payload_never_nullish [] [TimerFires 0]
           (Some (Mock.make (Some Null) (Some Null) (Some (lit 500))))
           None (InputString "/api") None).
  reflexivity.
Defined.

(** X8.  When the target is a [Request] object, [url] is the string
    [[object Request]], whatever the URL of the request: the code takes
    [input.toString()], not [input.url]. *)
Theorem request_object_url
    (history es : list Event) (mock : option Mock.t) (timout : option number)
    (request_url : string) (init : option RequestInit) (r : Response.t) :
  outcome mock timout (InputRequest request_url) init (world_after history) es
  = Some (Fulfilled (RResponse r)) →
  Response.url r = "[object Request]".
Proof.
  intros Hful.
  apply outcome_fulfilled in Hful as [[= ->] _]; [|apply world_after_well_formed].
  apply response_url.
Qed.

Lemma request_object_url_witness :
  Response.url
    {| Response.url := "[object Request]"; Response.ok := true;
       Response.status := lit 200; Response.captured := defaultSuccessResponse |}
  = "[object Request]".
Proof.
  apply (request_object_url [] [TimerFires 0] None None
           "https://api.example.com/data" None).
  reflexivity.
Defined.

(** ** The listener *)

Lemma step_has_listener e w sid cb :
  has_listener sid cb w → has_listener sid cb (step e w).
Proof.
  intros (sg & Hsg & Hin).
  destruct e as [id|sid' r'| |r'|mock timout|mock timout input init|v]; cbn [step].
  - unfold fire_timer. destruct (timers w !! id) as [[d cb']|]; [|by exists sg].
    destruct (run_callback_frame cb' (set_timers (delete id) w)) as (_&_&Hs).
    exists sg. by rewrite Hs.
  - unfold abort_signal. destruct (signals w !! sid') as [s|] eqn:Hsid'; [|by exists sg].
    destruct (aborted s) eqn:Hs; [by exists sg|].
    apply (dispatch_ind (has_listener sid cb)).
    + intros cb' w' _ (sg' & ? & ?).
      destruct (run_callback_frame cb' w') as (_&_&Hs'). exists sg'. by rewrite Hs'.
    + destruct (decide (sid' = sid)) as [->|Hne].
      * eexists. simpl.
        split; [apply list_lookup_insert_eq; by eapply lookup_lt_Some|].
        simpl. congruence.
      * exists sg. simpl. by rewrite list_lookup_insert_ne.
  - exists sg. simpl. split; [|done]. by apply lookup_app_l_Some.
  - exists sg. simpl. split; [|done]. by apply lookup_app_l_Some.
  - by exists sg.
  - rewrite request_function_unfold. simpl.
    destruct (init ≫= signal) as [sid'|]; [|by exists sg].
    destruct (decide (sid' = sid)) as [->|Hne'].
    + eexists. simpl. rewrite list_lookup_alter_eq, Hsg. simpl. split; [done|].
      apply elem_of_app. by left.
    + exists sg. simpl. by rewrite list_lookup_alter_ne.
  - rewrite Promise_resolve_unfold. by exists sg.
Qed.

Lemma run_has_listener es w sid cb :
  has_listener sid cb w → has_listener sid cb (run es w).
Proof.
  revert w. induction es as [|e es IH]; intros w Hw; [done|].
  rewrite run_cons. by apply IH, step_has_listener.
Qed.

(** X9.  The listener the call adds to its signal is never removed: it
    is still on the signal after the timer has fired and the promise is
    resolved, and after the signal has aborted. *)
Theorem listener_never_removed
    (history es : list Event) (mock : option Mock.t) (timout : option number)
    (input : RequestInput) (init : option RequestInit)
    (sid : nat) (sg : AbortSignal) :
  init ≫= signal = Some sid →
  signals (world_after history) !! sid = Some sg →
  has_listener sid
    (OnAbort (next_timer (world_after history)) sid
       (length (promises (world_after history))))
    (run es (fetch_call mock timout input init (world_after history)).1).
Proof.
  intros Hinit Hsg. apply run_has_listener.
  rewrite fetch_call_unfold, request_function_unfold.
  eexists. simpl. rewrite Hinit, list_lookup_alter_eq. simpl. rewrite Hsg. simpl.
  split; [done|]. simpl. apply elem_of_app. right. by apply list_elem_of_singleton.
Qed.

Lemma listener_never_removed_witness :
  has_listener 0 (OnAbort 0 0 0)
    (run [TimerFires 0; SignalAborts 0 (Str "late")]
       (fetch_call None None (InputString "/api") (Some {| signal := Some 0 |})
          (world_after [SignalCreated])).1).
Proof.
  apply (listener_never_removed [SignalCreated]
           [TimerFires 0; SignalAborts 0 (Str "late")] None None (InputString "/api")
           (Some {| signal := Some 0 |}) 0
           {| aborted := false; reason := Undefined; listeners := [] |});
    reflexivity.
Defined.

(** ** Several calls on one signal *)

Lemma world_after_call before mock timout input init es :
  world_after (before ++ FetchCalled mock timout input init :: es)
  = run es (request_function mock timout input init (world_after before)).1.
Proof. unfold world_after. by rewrite run_app, run_cons. Qed.

(** X10.  One abort cancels every pending call the signal was given to.
    Take any history of events and any call in it that was given the
    signal while the signal was live: if since that call the signal has
    not aborted and the call's timer has not fired, then once the signal
    aborts the call's promise is rejected with the signal's reason and
    its timer is disarmed, whatever happened between the calls and
    whatever happens afterwards. *)
Theorem abort_rejects_every_pending_call
    (history before since after : list Event) (mock : option Mock.t)
    (timout : number) (input : RequestInput) (init : option RequestInit)
    (sid : nat) (sg : AbortSignal) (r : JsVal) :
  history = before ++ FetchCalled mock timout input init :: since →
  init ≫= signal = Some sid →
  signals (world_after before) !! sid = Some sg →
  aborted sg = false →
  no_abort init since = true →
  no_timer (next_timer (world_after before)) since = true →
  rejected_with
    (request_function mock timout input init (world_after before)).2
    (next_timer (world_after before)) r
    (world_after (history ++ SignalAborts sid r :: after)).
Proof.
  intros -> Hinit Hsg Hab Hq Ht.
  rewrite <-app_assoc, <-app_comm_cons, world_after_call.
  rewrite (request_function_unfold mock timout input init (world_after before)) at 1.
  cbn [snd].
  pose proof (world_after_well_formed before) as Hwf.
  eapply abort_first; try done.
  - by apply request_isolated.
  - apply request_armed.
  - by eapply request_listening.
Qed.

Lemma abort_rejects_every_pending_call_witness :
  rejected_with 0 0 (Str "cancelled")
    (world_after
       ([SignalCreated;
         FetchCalled None (lit 1000) (InputString "/a") (Some {| signal := Some 0 |});
         PromiseResolved Null; TimerFires 7;
         FetchCalled (Some (Mock.make None (Some (Str "bad request")) None)) (lit 0)
           (InputString "/b") (Some {| signal := Some 0 |});
         FetchCalled None (lit 0) (InputString "/c") None]
        ++ SignalAborts 0 (Str "cancelled") :: [TimerFires 0; TimerFires 1])) ∧
  rejected_with 2 1 (Str "cancelled")
    (world_after
       ([SignalCreated;
         FetchCalled None (lit 1000) (InputString "/a") (Some {| signal := Some 0 |});
         PromiseResolved Null; TimerFires 7;
         FetchCalled (Some (Mock.make None (Some (Str "bad request")) None)) (lit 0)
           (InputString "/b") (Some {| signal := Some 0 |});
         FetchCalled None (lit 0) (InputString "/c") None]
        ++ SignalAborts 0 (Str "cancelled") :: [TimerFires 0; TimerFires 1])).
Proof.
  split.
  - apply (abort_rejects_every_pending_call _ [SignalCreated]
             [PromiseResolved Null; TimerFires 7;
              FetchCalled (Some (Mock.make None (Some (Str "bad request")) None))
                (lit 0) (InputString "/b") (Some {| signal := Some 0 |});
              FetchCalled None (lit 0) (InputString "/c") None]
             [TimerFires 0; TimerFires 1] None (lit 1000) (InputString "/a")
             (Some {| signal := Some 0 |}) 0
             {| aborted := false; reason := Undefined; listeners := [] |}
             (Str "cancelled")); reflexivity.
  - apply (abort_rejects_every_pending_call _
             [SignalCreated;
              FetchCalled None (lit 1000) (InputString "/a")
                (Some {| signal := Some 0 |});
              PromiseResolved Null; TimerFires 7]
             [FetchCalled None (lit 0) (InputString "/c") None]
             [TimerFires 0; TimerFires 1]
             (Some (Mock.make None (Some (Str "bad request")) None)) (lit 0)
             (InputString "/b") (Some {| signal := Some 0 |}) 0
             {| aborted := false; reason := Undefined;
                listeners := [OnAbort 0 0 0] |}
             (Str "cancelled")); reflexivity.
Defined.
